(** * NQueens-LinkedIn: the board and its backtracking solver

    A shallow embedding of [src/Solver.py] (classes [Cell] and [Grid], and
    the recolouring assignment of [main]) together with the properties the
    specification states about them.

    Python integers are [Z].  A Python exception is an explicit outcome of
    the [result] type.  The two mutable containers of [backtrack] (the list
    [queen_positions] and the set [placed_regions]) are threaded through the
    search as an explicit state. *)

From Stdlib Require Import ZArith List String.
From stdpp Require Import base decidable option list gmap.

Import ListNotations.
Local Open Scope Z_scope.

(** ** Outcomes of Python code *)

Inductive exn : Type :=
  | TypeError
  | IndexError
  | KeyError.

Inductive result (A : Type) : Type :=
  | Ok (a : A)
  | Raise (e : exn)
  | OutOfFuel.

Arguments Ok {A} a.
Arguments Raise {A} e.
Arguments OutOfFuel {A}.

Definition bind {A B : Type} (m : result A) (k : A -> result B) : result B :=
  match m with
  | Ok a => k a
  | Raise e => Raise e
  | OutOfFuel => OutOfFuel
  end.

Notation "'let*' x ':=' m 'in' k" := (bind m (fun x => k))
  (at level 10, x name, m at level 100, k at level 200).

(** ** Python sequences *)

(** [range(n)]: the integers [0, 1, ..., n-1]; empty when [n <= 0]. *)
Definition range (n : Z) : list Z := seqZ 0 n.

(** Subscript normalisation: a negative subscript counts from the end. *)
Definition py_pos {A : Type} (l : list A) (i : Z) : option nat :=
  let len := Z.of_nat (length l) in
  if (0 <=? i) && (i <? len) then Some (Z.to_nat i)
  else if (i <? 0) && (- len <=? i) then Some (Z.to_nat (len + i))
  else None.

(** [l[i]]. *)
Definition py_get {A : Type} (l : list A) (i : Z) : result A :=
  match py_pos l i with
  | Some k =>
      match l !! k with
      | Some a => Ok a
      | None => Raise IndexError
      end
  | None => Raise IndexError
  end.

(** In-place change of the object stored at [l[i]]. *)
Definition py_update {A : Type} (l : list A) (i : Z) (f : A -> A)
  : result (list A) :=
  let* a := py_get l i in
  match py_pos l i with
  | Some k => Ok (<[k := f a]> l)
  | None => Raise IndexError
  end.

(** [l.pop()]. *)
Definition py_pop {A : Type} (l : list A) : result (list A) :=
  match l with
  | [] => Raise IndexError
  | _ => Ok (removelast l)
  end.

(** ** Data model *)

Record Cell : Type := mkCell {
  row : Z;
  col : Z;
  color : Z;
  contains_queen : bool
}.

(** [Cell.__init__]. *)
Definition Cell_init (r c k : Z) : Cell :=
  {| row := r; col := c; color := k; contains_queen := false |}.

Definition pos : Type := (Z * Z)%type.

Record Grid : Type := mkGrid {
  grid_size : Z;
  grid : list (list Cell);
  (** [None] is Python's [None], stored by a failed [solve]. *)
  queen_positions : option (list pos);
  history : list (Z * Z * Z)
}.

Definition set_grid (self : Grid) (g : list (list Cell)) : Grid :=
  {| grid_size := grid_size self; grid := g;
     queen_positions := queen_positions self; history := history self |}.

Definition set_queen_positions (self : Grid) (q : option (list pos)) : Grid :=
  {| grid_size := grid_size self; grid := grid self;
     queen_positions := q; history := history self |}.

Definition set_history (self : Grid) (h : list (Z * Z * Z)) : Grid :=
  {| grid_size := grid_size self; grid := grid self;
     queen_positions := queen_positions self; history := h |}.

(** [Grid.__init__]. *)
Definition Grid_init (n : Z) : result Grid :=
  Ok {| grid_size := n;
        grid := (fun r => (fun c => Cell_init r c 0) <$> range n) <$> range n;
        queen_positions := Some [];
        history := [] |}.

(** [self.grid[r][c]]. *)
Definition cell_at (self : Grid) (r c : Z) : result Cell :=
  let* line := py_get (grid self) r in
  py_get line c.

(** [self.grid[r][c].<field> = ...]: the cell object is changed in place. *)
Definition update_cell (self : Grid) (r c : Z) (f : Cell -> Cell) : result Grid :=
  let* line := py_get (grid self) r in
  let* line' := py_update line c f in
  let* g := py_update (grid self) r (fun _ => line') in
  Ok (set_grid self g).

Definition set_color (k : Z) (x : Cell) : Cell :=
  {| row := row x; col := col x; color := k; contains_queen := contains_queen x |}.

Definition set_contains_queen (b : bool) (x : Cell) : Cell :=
  {| row := row x; col := col x; color := color x; contains_queen := b |}.

(** ** [Grid.is_safe] *)

(** The loop of [is_safe] over the queens [qs]. *)
Fixpoint is_safe_loop (self : Grid) (r0 c0 : Z) (qs : list pos) : result bool :=
  match qs with
  | [] => Ok true
  | (r, c) :: qs' =>
      if (r =? r0) || (c =? c0) then Ok false
      else if (Z.abs (r0 - r) <=? 1) && (Z.abs (c0 - c) <=? 1) then Ok false
      else
        let* a := cell_at self r c in
        let* b := cell_at self r0 c0 in
        if color a =? color b then Ok false
        else is_safe_loop self r0 c0 qs'
  end.

(** [is_safe] iterates over the attribute [self.queen_positions]; iterating
    over [None] raises [TypeError]. *)
Definition is_safe (self : Grid) (r0 c0 : Z) : result bool :=
  match queen_positions self with
  | None => Raise TypeError
  | Some qs => is_safe_loop self r0 c0 qs
  end.

(** ** [Grid.solve] *)

(** The two mutable arguments of [backtrack]. *)
Record search : Type := mkSearch {
  s_queens : list pos;
  s_regions : gset Z
}.

(** Truth value of what [backtrack] returns: [None] and the empty list are
    false. *)
Definition truthy (r : option (list pos)) : bool :=
  match r with
  | Some (_ :: _) => true
  | _ => false
  end.

(** [placed_regions.remove(k)]. *)
Definition set_remove (k : Z) (s : gset Z) : result (gset Z) :=
  if bool_decide (k ∈ s) then Ok (s ∖ {[ k ]}) else Raise KeyError.

(** The [for col in ...] loop of [backtrack] at row [r], over the columns
    still to be tried; [rec] is the recursive call [backtrack(row + 1, ...)]
    on the shared list and set. *)
Fixpoint backtrack_cols
    (rec : search -> result (option (list pos) * search))
    (self : Grid) (r : Z) (cols : list Z) (st : search)
  : result (option (list pos) * search) :=
  match cols with
  | [] => Ok (None, st)
  | c :: cols' =>
      let* cell := cell_at self r c in
      let* safe := is_safe self r c in
      if safe && negb (bool_decide (color cell ∈ s_regions st)) then
        let st1 := {| s_queens := s_queens st ++ [(r, c)];
                      s_regions := {[ color cell ]} ∪ s_regions st |} in
        let* out := rec st1 in
        let '(res, st2) := out in
        if truthy res then Ok (Some (s_queens st2), st2)
        else
          let* q := py_pop (s_queens st2) in
          let* p := set_remove (color cell) (s_regions st2) in
          backtrack_cols rec self r cols' {| s_queens := q; s_regions := p |}
      else backtrack_cols rec self r cols' st
  end.

(** The nested function [backtrack]; [fuel] bounds the recursion depth. *)
Fixpoint backtrack (fuel : nat) (self : Grid) (r : Z) (st : search)
  : result (option (list pos) * search) :=
  match fuel with
  | O => OutOfFuel
  | S fuel' =>
      if r =? grid_size self then Ok (Some (s_queens st), st)
      else backtrack_cols (backtrack fuel' self (r + 1)) self r
             (range (grid_size self)) st
  end.

(** The arguments of the first call, [backtrack(0, [], set())]. *)
Definition start : search := {| s_queens := []; s_regions := ∅ |}.

(** The loop that marks the cells of a found placement. *)
Fixpoint mark_queens (self : Grid) (qs : list pos) : result Grid :=
  match qs with
  | [] => Ok self
  | (r, c) :: qs' =>
      let* self' := update_cell self r c (set_contains_queen true) in
      mark_queens self' qs'
  end.

Definition no_solution_msg : string := "No solution found!".

(** Recursion depth that [solve] needs: one call per row and the base case. *)
Definition solve_fuel (self : Grid) : nat := S (Z.to_nat (grid_size self)).

(** [Grid.solve]: the lines printed and the board afterwards. *)
Definition solve (self : Grid) : result (list string * Grid) :=
  let* out := backtrack (solve_fuel self) self 0 start in
  let self1 := set_queen_positions self (fst out) in
  if negb (truthy (queen_positions self1)) then Ok ([no_solution_msg], self1)
  else
    match queen_positions self1 with
    | Some qs => let* self2 := mark_queens self1 qs in Ok ([], self2)
    | None => Raise TypeError
    end.

(** ** [Grid.reset] *)

Fixpoint reset_cols (self : Grid) (r : Z) (cols : list Z) : result Grid :=
  match cols with
  | [] => Ok self
  | c :: cols' =>
      let* self' := update_cell self r c (set_contains_queen false) in
      reset_cols self' r cols'
  end.

Fixpoint reset_rows (self : Grid) (rows : list Z) : result Grid :=
  match rows with
  | [] => Ok self
  | r :: rows' =>
      let* self' := reset_cols self r (range (grid_size self)) in
      reset_rows self' rows'
  end.

Definition reset (self : Grid) : result Grid :=
  reset_rows (set_queen_positions self (Some [])) (range (grid_size self)).

(** ** [Grid.undo] *)

Definition undo (self : Grid) : result Grid :=
  match history self with
  | [] => Ok self
  | _ :: _ =>
      match last (history self) with
      | Some (r, c, prev_color) =>
          update_cell (set_history self (removelast (history self)))
            r c (set_color prev_color)
      | None => Raise IndexError
      end
  end.

(** ** Recolouring a cell: [grid.grid[row][col].color = selected_color] in
    [main], the only place where a region is changed. *)
Definition set_region (self : Grid) (r c k : Z) : result Grid :=
  update_cell self r c (set_color k).

(** ** The public operations and the states they reach *)

Inductive op : Type :=
  | Op_set_region (r c k : Z)
  | Op_solve
  | Op_reset
  | Op_undo.

Definition run_op (self : Grid) (o : op) : result Grid :=
  match o with
  | Op_set_region r c k => set_region self r c k
  | Op_solve => let* out := solve self in Ok (snd out)
  | Op_reset => reset self
  | Op_undo => undo self
  end.

(** A board is reachable when a constructor call followed by operations that
    return normally produces it (an uncaught exception ends the program). *)
Inductive reachable : Grid -> Prop :=
  | reachable_init n self :
      Grid_init n = Ok self -> reachable self
  | reachable_step self o self' :
      reachable self -> run_op self o = Ok self' -> reachable self'.

(** ** Vocabulary of the specification *)

(** A call of [solve] found a placement [qs]: nothing was printed and the
    board now stores the non-empty list [qs]. *)
Definition solved_with (self : Grid) (qs : list pos) : Prop :=
  exists self', solve self = Ok ([], self') /\
                queen_positions self' = Some qs /\ truthy (Some qs) = true.

(** A call of [solve] reported that there is no solution. *)
Definition no_solution (self : Grid) : Prop :=
  exists self', solve self = Ok ([no_solution_msg], self').

Definition chebyshev (p q : pos) : Z :=
  Z.max (Z.abs (p.1 - q.1)) (Z.abs (p.2 - q.2)).

Definition distinct_rows (qs : list pos) : Prop := NoDup (qs.*1).
Definition distinct_cols (qs : list pos) : Prop := NoDup (qs.*2).

Definition no_adjacent (qs : list pos) : Prop :=
  forall i j p q, i <> j -> qs !! i = Some p -> qs !! j = Some q ->
                  1 < chebyshev p q.

(** The cell's flag, and membership of the cell in the stored placement
    ([None] holds no cell). *)
Definition occupied (self : Grid) (r c : Z) : Prop :=
  exists x, cell_at self r c = Ok x /\ contains_queen x = true.

Definition in_placements (self : Grid) (r c : Z) : Prop :=
  exists qs, queen_positions self = Some qs /\ (r, c) ∈ qs.

(** The cell in line [i], place [j], both counted from 0. *)
Definition cell_nat (g : list (list Cell)) (i j : nat) : option Cell :=
  match g !! i with
  | Some line => line !! j
  | None => None
  end.

(** The region of a cell. *)
Definition region (self : Grid) (r c : Z) : result Z :=
  let* x := cell_at self r c in Ok (color x).

(** The region colouring of a board, and its shape. *)
Definition colors (g : list (list Cell)) : list (list Z) :=
  (fun line : list Cell => color <$> line) <$> g.

Definition square (n : Z) (g : list (list Cell)) : Prop :=
  length g = Z.to_nat n /\ Forall (fun line => length line = Z.to_nat n) g.

(** ** Invariant of the reachable boards *)

Definition in_bounds (n : Z) (p : pos) : Prop :=
  0 <= p.1 < n /\ 0 <= p.2 < n.

Definition covers_rows (n : Z) (qs : list pos) : Prop :=
  forall r, 0 <= r < n -> exists c, (r, c) ∈ qs.

(** The stored placement is [None], empty, or holds in-bounds cells with at
    least one in every row. *)
Definition placement_inv (n : Z) (q : option (list pos)) : Prop :=
  match q with
  | None => True
  | Some qs => qs = [] \/ (1 <= n /\ Forall (in_bounds n) qs /\ covers_rows n qs)
  end.

Record board_inv (self : Grid) : Prop := mkBoardInv {
  inv_square : square (grid_size self) (grid self);
  inv_history : history self = [];
  inv_placement : placement_inv (grid_size self) (queen_positions self)
}.

(** Two boards that [solve] cannot tell apart before it starts. *)
Definition same_puzzle (a b : Grid) : Prop :=
  grid_size a = grid_size b /\ colors (grid a) = colors (grid b).

(** On the reachable boards, as long as a placement is stored, the flagged
    cells are the cells of that placement. *)
Definition flags_agree (self : Grid) : Prop :=
  forall qs, queen_positions self = Some qs ->
  forall r c, in_bounds (grid_size self) (r, c) ->
              occupied self r c <-> (r, c) ∈ qs.

(** What [solve], [reset] and their loops leave alone. *)
Definition same_frame (a b : Grid) : Prop :=
  grid_size b = grid_size a /\
  queen_positions b = queen_positions a /\
  history b = history a /\
  square (grid_size b) (grid b) /\
  colors (grid b) = colors (grid a).

(** The regions [ks] of the cells [qs], in order. *)
Definition regions_of (self : Grid) (qs : list pos) (ks : list Z) : Prop :=
  Forall2 (fun p k => region self p.1 p.2 = Ok k) qs ks.

Definition distinct_regions (self : Grid) (qs : list pos) : Prop :=
  exists ks, regions_of self qs ks /\ NoDup ks.

(** The used-region set holds the regions of the queens placed so far, and
    these are pairwise distinct. *)
Definition tracked (self : Grid) (st : search) : Prop :=
  exists ks, regions_of self (s_queens st) ks /\ NoDup ks /\
             forall k, k ∈ ks -> k ∈ s_regions st.

(** What a call of [backtrack] at row [r] returns from the state [st], on a
    board without stored queens: nothing, with list and set as they were; or
    the list, grown by one queen for each of the rows [r .. n-1], in that
    order, with in-bounds columns and regions not used before. *)
Definition extends (self : Grid) (r : Z) (st : search)
    (out : option (list pos) * search) : Prop :=
  (out = (None, st)) \/
  (exists tail,
      out.1 = Some (s_queens st ++ tail) /\
      s_queens out.2 = s_queens st ++ tail /\
      tail.*1 = seqZ r (grid_size self - r) /\
      Forall (fun p => 0 <= p.2 < grid_size self) tail /\
      tracked self out.2).

(** ** The search when only the used-region set prunes

    The search of section 4.2 of the specification with the [is_safe] test
    left out: a column is skipped exactly when its region is already used. *)

Fixpoint region_cols
    (rec : search -> result (option (list pos) * search))
    (self : Grid) (r : Z) (cols : list Z) (st : search)
  : result (option (list pos) * search) :=
  match cols with
  | [] => Ok (None, st)
  | c :: cols' =>
      let* cell := cell_at self r c in
      if negb (bool_decide (color cell ∈ s_regions st)) then
        let st1 := {| s_queens := s_queens st ++ [(r, c)];
                      s_regions := {[ color cell ]} ∪ s_regions st |} in
        let* out := rec st1 in
        let '(res, st2) := out in
        if truthy res then Ok (Some (s_queens st2), st2)
        else
          let* q := py_pop (s_queens st2) in
          let* p := set_remove (color cell) (s_regions st2) in
          region_cols rec self r cols' {| s_queens := q; s_regions := p |}
      else region_cols rec self r cols' st
  end.

Fixpoint region_search (fuel : nat) (self : Grid) (r : Z) (st : search)
  : result (option (list pos) * search) :=
  match fuel with
  | O => OutOfFuel
  | S fuel' =>
      if r =? grid_size self then Ok (Some (s_queens st), st)
      else region_cols (region_search fuel' self (r + 1)) self r
             (range (grid_size self)) st
  end.

(** ** Sample boards *)

Definition unwrap (m : result Grid) : Grid :=
  match m with
  | Ok self => self
  | _ => {| grid_size := 0; grid := []; queen_positions := None; history := [] |}
  end.

(** The 1x1 board as constructed. *)
Definition board1 : Grid := unwrap (Grid_init 1).

(** The 1x1 board after one [solve]. *)
Definition board1_solved : Grid := unwrap (run_op board1 Op_solve).

(** The 1x1 board after two [solve] calls. *)
Definition board1_failed : Grid := unwrap (run_op board1_solved Op_solve).

(** The 2x2 board as constructed: every cell in region 0. *)
Definition board2 : Grid := unwrap (Grid_init 2).

(** The 2x2 board whose row 0 is region 0 and whose row 1 is region 1. *)
Definition board2_rows : Grid :=
  unwrap (let* a := set_region board2 1 0 1 in set_region a 1 1 1).

(** ** Vocabulary for the further properties *)

(** The four reasons for which [is_safe] rejects the cell [(r0, c0)] in view
    of a stored queen [q]: same row, same column, within one step in both
    directions, same region. *)
Definition conflict (self : Grid) (r0 c0 : Z) (q : pos) : Prop :=
  q.1 = r0 \/ q.2 = c0 \/
  (Z.abs (r0 - q.1) <= 1 /\ Z.abs (c0 - q.2) <= 1) \/
  region self q.1 q.2 = region self r0 c0.

(** One queen in each of the rows 0 .. n-1, in that order, on the board, all
    in different regions: what the search looks for when [is_safe] does not
    prune. *)
Definition region_assignment (self : Grid) (qs : list pos) : Prop :=
  qs.*1 = range (grid_size self) /\
  Forall (in_bounds (grid_size self)) qs /\
  distinct_regions self qs.

(** Lexicographic order on lists of columns. *)
Inductive lex_le : list Z -> list Z -> Prop :=
  | lex_le_nil k : lex_le [] k
  | lex_le_lt x y l k : x < y -> lex_le (x :: l) (y :: k)
  | lex_le_eq x l k : lex_le l k -> lex_le (x :: l) (x :: k).

(** [tail] fills the rows [r .. n-1], in that order, with cells of the board
    whose regions are pairwise distinct and not in [used]. *)
Definition fresh_tail (self : Grid) (r : Z) (used : gset Z) (tail : list pos)
  : Prop :=
  tail.*1 = seqZ r (grid_size self - r) /\
  Forall (fun p => 0 <= p.2 < grid_size self) tail /\
  exists ks, regions_of self tail ks /\ NoDup ks /\
             forall k, k ∈ ks -> k ∉ used.

(** What a call of [backtrack] at row [r] from the state [st] returns on a
    board without stored queens: nothing, with list and set as they were,
    when no fresh tail exists; otherwise the list grown by the fresh tail
    whose columns come first in the lexicographic order. *)
Definition finds_first (self : Grid) (r : Z) (st : search)
    (out : option (list pos) * search) : Prop :=
  (out = (None, st) /\
   forall tail, ~ fresh_tail self r (s_regions st) tail) \/
  (exists tail,
      out.1 = Some (s_queens st ++ tail) /\
      s_queens out.2 = s_queens st ++ tail /\
      fresh_tail self r (s_regions st) tail /\
      forall tail', fresh_tail self r (s_regions st) tail' ->
                    lex_le (tail.*2) (tail'.*2)).

(** Every cell records the line and the place at which it is stored. *)
Definition coords_ok (self : Grid) : Prop :=
  forall i j x, cell_nat (grid self) i j = Some x ->
                row x = Z.of_nat i /\ col x = Z.of_nat j.

(** ** [main]: the window, the palette and the mouse

    The parts of [main] that compute: the constants, the loop that fills the
    palette, the handler of a mouse click and the loops of [draw_grid],
    [draw_palette] and [draw_buttons].  What pygame paints is kept as a list
    of drawing commands. *)

Definition WIDTH : Z := 900.
Definition HEIGHT : Z := 1000.
Definition GRID_SIZE : Z := 11.
Definition CELL_SIZE : Z := WIDTH / GRID_SIZE.
Definition PALETTE_HEIGHT : Z := 100.

Definition rgb : Type := (Z * Z * Z)%type.

Definition BLACK : rgb := (0, 0, 0).

(** The ten colours that [COLORS] is initialised with. *)
Definition base_colors : list rgb :=
  [ (255, 0, 0); (255, 165, 0); (255, 255, 0); (0, 128, 0); (0, 0, 255);
    (75, 0, 130); (148, 0, 211); (255, 105, 180); (64, 224, 208);
    (139, 69, 19) ].

(** [while len(COLORS) < GRID_SIZE + 1: COLORS.append(...)], for a grid size
    [size] and a list [cs]; [fuel] bounds the number of tests of the loop
    condition. *)
Fixpoint pad_colors (fuel : nat) (size : Z) (cs : list rgb) : result (list rgb) :=
  match fuel with
  | O => OutOfFuel
  | S fuel' =>
      let n := Z.of_nat (length cs) in
      if n <? size + 1 then
        pad_colors fuel' size
          (cs ++ [((n * 15) mod 256, (n * 50) mod 256, (n * 90) mod 256)])
      else Ok cs
  end.

(** One test of the loop condition for each missing colour, and the last
    one. *)
Definition pad_fuel (size : Z) (cs : list rgb) : nat :=
  S (Z.to_nat (size + 1 - Z.of_nat (length cs))).

(** The palette of [main] once the loop has run. *)
Definition COLORS : list rgb :=
  match pad_colors (pad_fuel GRID_SIZE base_colors) GRID_SIZE base_colors with
  | Ok cs => cs
  | _ => base_colors
  end.

(** What a button does when it is hit. *)
Inductive action : Type :=
  | Act_solve
  | Act_reset
  | Act_undo
  | Act_quit.

Record button : Type := mkButton {
  b_text : string;
  b_x : Z;
  b_y : Z;
  b_action : action
}.

Definition buttons : list button :=
  [ mkButton "Solve" 50 (HEIGHT - PALETTE_HEIGHT - 60) Act_solve;
    mkButton "Reset" 250 (HEIGHT - PALETTE_HEIGHT - 60) Act_reset;
    mkButton "Undo" 450 (HEIGHT - PALETTE_HEIGHT - 60) Act_undo;
    mkButton "Exit" 650 (HEIGHT - PALETTE_HEIGHT - 60) Act_quit ].

(** The state that the closures of [main] share: the board, the selected
    colour, what has been printed, and whether [pygame.quit] has been
    called. *)
Record ui : Type := mkUi {
  ui_grid : Grid;
  selected_color : Z;
  printed : list string;
  quit_called : bool
}.

(** [grid = Grid(GRID_SIZE)] and [selected_color = 1]. *)
Definition ui_init : result ui :=
  let* g := Grid_init GRID_SIZE in
  Ok {| ui_grid := g; selected_color := 1; printed := []; quit_called := false |}.

Definition set_ui_grid (u : ui) (g : Grid) : ui :=
  {| ui_grid := g; selected_color := selected_color u;
     printed := printed u; quit_called := quit_called u |}.

(** [button["action"]()]. *)
Definition run_action (u : ui) (a : action) : result ui :=
  match a with
  | Act_solve =>
      let* out := solve (ui_grid u) in
      Ok {| ui_grid := snd out; selected_color := selected_color u;
            printed := printed u ++ fst out; quit_called := quit_called u |}
  | Act_reset => let* g := reset (ui_grid u) in Ok (set_ui_grid u g)
  | Act_undo => let* g := undo (ui_grid u) in Ok (set_ui_grid u g)
  | Act_quit =>
      Ok {| ui_grid := ui_grid u; selected_color := selected_color u;
            printed := printed u; quit_called := true |}
  end.

(** The hit test of one button. *)
Definition hit (b : button) (x y : Z) : bool :=
  (b_x b <=? x) && (x <=? b_x b + 150) && (b_y b <=? y) && (y <=? b_y b + 50).

(** [for button in buttons: if <hit>: button["action"]()]. *)
Fixpoint click_buttons (bs : list button) (u : ui) (x y : Z) : result ui :=
  match bs with
  | [] => Ok u
  | b :: bs' =>
      if hit b x y then
        let* u' := run_action u (b_action b) in click_buttons bs' u' x y
      else click_buttons bs' u x y
  end.

(** The handler of [MOUSEBUTTONDOWN] for the mouse position [(x, y)].  The
    two divisors, the palette width and the cell size, are the non-zero
    constants 75 and 81. *)
Definition mouse_down (u : ui) (x y : Z) : result ui :=
  if HEIGHT - PALETTE_HEIGHT <=? y then
    let palette_width := WIDTH / Z.of_nat (length COLORS) in
    Ok {| ui_grid := ui_grid u; selected_color := x / palette_width;
          printed := printed u; quit_called := quit_called u |}
  else if (HEIGHT - PALETTE_HEIGHT - 60 <=? y) && (y <? HEIGHT - PALETTE_HEIGHT)
  then click_buttons buttons u x y
  else
    let col := x / CELL_SIZE in
    let row := y / CELL_SIZE in
    let* g := set_region (ui_grid u) row col (selected_color u) in
    Ok (set_ui_grid u g).

(** What the drawing functions ask pygame to paint: a filled rectangle, the
    border of a rectangle, the queen glyph centred at a point, a text. *)
Inductive paint : Type :=
  | Fill (c : rgb) (x y w h : Z)
  | Outline (c : rgb) (x y w h : Z) (width : Z)
  | Queen (cx cy : Z)
  | Label (text : string) (x y : Z).

(** The body of the inner loop of [draw_grid] for one cell. *)
Definition draw_cell (u : ui) (r c : Z) : result (list paint) :=
  let* cell := cell_at (ui_grid u) r c in
  let* cell_color := py_get COLORS (color cell) in
  let* cell' := cell_at (ui_grid u) r c in
  Ok ([ Fill cell_color (c * CELL_SIZE) (r * CELL_SIZE) CELL_SIZE CELL_SIZE;
        Outline BLACK (c * CELL_SIZE) (r * CELL_SIZE) CELL_SIZE CELL_SIZE 1 ]
      ++ (if contains_queen cell'
          then [ Queen (c * CELL_SIZE + CELL_SIZE / 2)
                       (r * CELL_SIZE + CELL_SIZE / 2) ]
          else [])).

Fixpoint draw_cols (u : ui) (r : Z) (cols : list Z) : result (list paint) :=
  match cols with
  | [] => Ok []
  | c :: cols' =>
      let* ps := draw_cell u r c in
      let* rest := draw_cols u r cols' in
      Ok (ps ++ rest)
  end.

Fixpoint draw_rows (u : ui) (rows : list Z) : result (list paint) :=
  match rows with
  | [] => Ok []
  | r :: rows' =>
      let* ps := draw_cols u r (range GRID_SIZE) in
      let* rest := draw_rows u rows' in
      Ok (ps ++ rest)
  end.

(** [draw_grid]. *)
Definition draw_grid (u : ui) : result (list paint) :=
  draw_rows u (range GRID_SIZE).

(** The loop of [draw_palette] from the colour number [i] on. *)
Fixpoint draw_swatches (u : ui) (palette_width i : Z) (cs : list rgb)
  : list paint :=
  match cs with
  | [] => []
  | color :: cs' =>
      let x := i * palette_width in
      [ Fill color x (HEIGHT - PALETTE_HEIGHT) palette_width PALETTE_HEIGHT;
        Outline BLACK x (HEIGHT - PALETTE_HEIGHT) palette_width PALETTE_HEIGHT 2 ]
      ++ (if i =? selected_color u
          then [ Outline BLACK (x + 2) (HEIGHT - PALETTE_HEIGHT + 2)
                         (palette_width - 4) (PALETTE_HEIGHT - 4) 3 ]
          else [])
      ++ draw_swatches u palette_width (i + 1) cs'
  end.

(** [draw_palette]. *)
Definition draw_palette (u : ui) : list paint :=
  draw_swatches u (WIDTH / Z.of_nat (length COLORS)) 0 COLORS.

(** [draw_buttons]. *)
Definition draw_buttons : list paint :=
  flat_map (fun b => [ Fill BLACK (b_x b) (b_y b) 150 50;
                       Label (b_text b) (b_x b + 20) (b_y b + 10) ])
           buttons.

(** The states of the window: the initial one, and those that mouse clicks
    inside the window lead to, as long as no handler raises and [pygame.quit]
    has not been called. *)
Inductive ui_reachable : ui -> Prop :=
  | ui_reachable_init u :
      ui_init = Ok u -> ui_reachable u
  | ui_reachable_click u x y u' :
      ui_reachable u -> quit_called u = false ->
      0 <= x < WIDTH -> 0 <= y < HEIGHT ->
      mouse_down u x y = Ok u' -> ui_reachable u'.

(** Every cell is in a region for which the palette has a colour. *)
Definition palette_ok (g : Grid) : Prop :=
  forall i j x, cell_nat (grid g) i j = Some x ->
                0 <= color x < Z.of_nat (length COLORS).

(** What holds of every state of the window. *)
Record ui_inv (u : ui) : Prop := mkUiInv {
  ui_board : reachable (ui_grid u);
  ui_size : grid_size (ui_grid u) = GRID_SIZE;
  ui_palette : palette_ok (ui_grid u);
  ui_selected : 0 <= selected_color u < Z.of_nat (length COLORS)
}.

(** * Properties *)

(** ** Subscripts *)

Lemma py_pos_in_bounds {A} (l : list A) i :
  0 <= i < Z.of_nat (length l) -> py_pos l i = Some (Z.to_nat i).
Proof.
  intros H. unfold py_pos.
  destruct (Z.leb_spec 0 i); [| lia].
  destruct (Z.ltb_spec i (Z.of_nat (length l))); [reflexivity | lia].
Qed.

Lemma py_pos_lt {A} (l : list A) i k :
  py_pos l i = Some k -> (k < length l)%nat.
Proof.
  unfold py_pos.
  destruct (Z.leb_spec 0 i); destruct (Z.ltb_spec i (Z.of_nat (length l)));
    cbn; try (intros [= <-]; lia).
  all: destruct (Z.ltb_spec i 0); destruct (Z.leb_spec (- Z.of_nat (length l)) i);
    cbn; try discriminate; intros [= <-]; lia.
Qed.

Lemma py_pos_fmap {A B} (f : A -> B) (l : list A) i :
  py_pos (f <$> l) i = py_pos l i.
Proof. unfold py_pos. rewrite length_fmap. reflexivity. Qed.

Lemma py_get_in_bounds {A} (l : list A) i :
  0 <= i < Z.of_nat (length l) ->
  exists a, py_get l i = Ok a /\ l !! Z.to_nat i = Some a.
Proof.
  intros H. unfold py_get. rewrite py_pos_in_bounds by exact H.
  destruct (lookup_lt_is_Some_2 l (Z.to_nat i)) as [a Ha]; [lia |].
  exists a. rewrite Ha. split; reflexivity.
Qed.

Lemma py_get_Ok {A} (l : list A) i a :
  py_get l i = Ok a -> exists k, py_pos l i = Some k /\ l !! k = Some a.
Proof.
  unfold py_get. destruct (py_pos l i) as [k |]; [| discriminate].
  destruct (l !! k) as [b |] eqn:E; [| discriminate].
  intros [= <-]. exists k. split; [reflexivity | exact E].
Qed.

Lemma py_get_fmap {A B} (f : A -> B) (l : list A) i :
  py_get (f <$> l) i = let* a := py_get l i in Ok (f a).
Proof.
  unfold py_get. rewrite py_pos_fmap.
  destruct (py_pos l i) as [k |]; [| reflexivity].
  rewrite list_lookup_fmap. destruct (l !! k); reflexivity.
Qed.

Lemma py_update_Ok {A} (l : list A) i f l' :
  py_update l i f = Ok l' ->
  exists k a, py_pos l i = Some k /\ l !! k = Some a /\ l' = <[k := f a]> l.
Proof.
  unfold py_update. destruct (py_get l i) as [a | e |] eqn:E; cbn; try discriminate.
  apply py_get_Ok in E as [k [Hk Ha]]. rewrite Hk. intros [= <-].
  exists k, a. split; [reflexivity | split; [exact Ha | reflexivity]].
Qed.

Lemma py_update_in_bounds {A} (l : list A) i f :
  0 <= i < Z.of_nat (length l) -> exists l', py_update l i f = Ok l'.
Proof.
  intros H. unfold py_update.
  destruct (py_get_in_bounds l i H) as [a [-> _]]. cbn.
  rewrite py_pos_in_bounds by exact H. eexists. reflexivity.
Qed.

(** ** Cells of a square board *)

Lemma square_line n g k line :
  square n g -> g !! k = Some line -> length line = Z.to_nat n.
Proof.
  intros [_ Hall] Hk. rewrite Forall_forall in Hall.
  apply Hall. eapply list_elem_of_lookup_2, Hk.
Qed.

Lemma cell_at_in_bounds self r c :
  square (grid_size self) (grid self) ->
  in_bounds (grid_size self) (r, c) ->
  exists x, cell_at self r c = Ok x.
Proof.
  intros Hsq [Hr Hc]. cbn in Hr, Hc. unfold cell_at.
  destruct (py_get_in_bounds (grid self) r) as [line [-> Hline]];
    [destruct Hsq as [-> _]; lia |]. cbn.
  destruct (py_get_in_bounds line c) as [x [-> _]];
    [rewrite (square_line _ _ _ _ Hsq Hline); lia |].
  exists x. reflexivity.
Qed.

Lemma update_cell_in_bounds self r c f :
  square (grid_size self) (grid self) ->
  in_bounds (grid_size self) (r, c) ->
  exists self', update_cell self r c f = Ok self'.
Proof.
  intros Hsq [Hr Hc]. cbn in Hr, Hc. unfold update_cell.
  assert (Hr' : 0 <= r < Z.of_nat (length (grid self)))
    by (destruct Hsq as [-> _]; lia).
  destruct (py_get_in_bounds (grid self) r Hr') as [line [-> Hline]]. cbn.
  destruct (py_update_in_bounds line c f) as [line' ->];
    [rewrite (square_line _ _ _ _ Hsq Hline); lia |]. cbn.
  destruct (py_update_in_bounds (grid self) r (fun _ => line') Hr') as [g ->].
  cbn. eexists. reflexivity.
Qed.

(** What an in-place change of one cell leaves alone. *)
Lemma update_cell_Ok self r c f self' :
  update_cell self r c f = Ok self' ->
  grid_size self' = grid_size self /\
  queen_positions self' = queen_positions self /\
  history self' = history self /\
  (forall n, square n (grid self) -> square n (grid self')) /\
  ((forall x, color (f x) = color x) ->
   colors (grid self') = colors (grid self)).
Proof.
  unfold update_cell.
  destruct (py_get (grid self) r) as [line | e |] eqn:E1; cbn; try discriminate.
  destruct (py_update line c f) as [line' | e |] eqn:E2; cbn; try discriminate.
  destruct (py_update (grid self) r (fun _ => line')) as [g | e |] eqn:E3;
    cbn; try discriminate.
  intros [= <-]. cbn.
  apply py_get_Ok in E1 as [k1 [Hk1 Hline]].
  apply py_update_Ok in E2 as [k2 [x [_ [Hx ->]]]].
  apply py_update_Ok in E3 as [k3 [line3 [Hk3 [_ ->]]]].
  assert (k3 = k1) as -> by congruence.
  do 3 (split; [reflexivity |]). split.
  - intros m [Hlen Hall]. split; [rewrite length_insert; exact Hlen |].
    apply Forall_insert; [exact Hall |].
    rewrite length_insert. rewrite Forall_forall in Hall.
    apply Hall. eapply list_elem_of_lookup_2, Hline.
  - intros Hf. unfold colors.
    rewrite list_fmap_insert. cbn.
    rewrite list_fmap_insert. rewrite Hf.
    rewrite (list_insert_id (color <$> line) k2 (color x))
      by (rewrite list_lookup_fmap, Hx; reflexivity).
    apply list_insert_id. rewrite list_lookup_fmap, Hline. reflexivity.
Qed.

Lemma occupied_grid self self' r c :
  grid self' = grid self -> occupied self' r c <-> occupied self r c.
Proof. intros H. unfold occupied, cell_at. rewrite H. reflexivity. Qed.

(** ** Reading and writing one cell *)

Lemma cell_at_Ok self r c x :
  cell_at self r c = Ok x ->
  exists line k1 k2,
    py_pos (grid self) r = Some k1 /\ py_pos line c = Some k2 /\
    grid self !! k1 = Some line /\ cell_nat (grid self) k1 k2 = Some x.
Proof.
  unfold cell_at.
  destruct (py_get (grid self) r) as [line | e |] eqn:E1; cbn; try discriminate.
  intros E2.
  apply py_get_Ok in E1 as [k1 [Hk1 Hline]].
  apply py_get_Ok in E2 as [k2 [Hk2 Hx]].
  exists line, k1, k2. unfold cell_nat. rewrite Hline. auto.
Qed.

Lemma cell_at_nat self r c :
  square (grid_size self) (grid self) ->
  in_bounds (grid_size self) (r, c) ->
  forall x,
    cell_at self r c = Ok x <->
    cell_nat (grid self) (Z.to_nat r) (Z.to_nat c) = Some x.
Proof.
  intros Hsq [Hr Hc] x. cbn in Hr, Hc. unfold cell_at, cell_nat.
  destruct (py_get_in_bounds (grid self) r) as [line [-> Hline]];
    [destruct Hsq as [-> _]; lia |]. cbn. rewrite Hline.
  destruct (py_get_in_bounds line c) as [y [-> Hy]];
    [rewrite (square_line _ _ _ _ Hsq Hline); lia |].
  rewrite Hy. split; congruence.
Qed.

Lemma update_cell_shape self r c f self' :
  update_cell self r c f = Ok self' ->
  exists k1 k2 line x,
    py_pos (grid self) r = Some k1 /\ py_pos line c = Some k2 /\
    grid self !! k1 = Some line /\ line !! k2 = Some x /\
    self' = set_grid self (<[k1 := <[k2 := f x]> line]> (grid self)).
Proof.
  unfold update_cell.
  destruct (py_get (grid self) r) as [line | e |] eqn:E1; cbn; try discriminate.
  destruct (py_update line c f) as [line' | e |] eqn:E2; cbn; try discriminate.
  destruct (py_update (grid self) r (fun _ => line')) as [g | e |] eqn:E3;
    cbn; try discriminate.
  intros [= <-].
  apply py_get_Ok in E1 as [k1 [Hk1 Hline]].
  apply py_update_Ok in E2 as [k2 [x [Hk2 [Hx ->]]]].
  apply py_update_Ok in E3 as [k3 [line3 [Hk3 [_ ->]]]].
  assert (k3 = k1) as -> by congruence.
  exists k1, k2, line, x. auto.
Qed.

Lemma cell_nat_insert g k1 k2 line x y i j :
  g !! k1 = Some line -> line !! k2 = Some x ->
  cell_nat (<[k1 := <[k2 := y]> line]> g) i j =
  if decide (i = k1 /\ j = k2) then Some y else cell_nat g i j.
Proof.
  intros Hline Hx. unfold cell_nat.
  destruct (decide (i = k1)) as [-> | Hi].
  - rewrite list_lookup_insert_eq by (eapply lookup_lt_Some, Hline).
    rewrite Hline.
    destruct (decide (j = k2)) as [-> | Hj].
    + rewrite list_lookup_insert_eq by (eapply lookup_lt_Some, Hx).
      rewrite decide_True by auto. reflexivity.
    + rewrite list_lookup_insert_ne by auto.
      rewrite decide_False by tauto. reflexivity.
  - rewrite list_lookup_insert_ne by auto.
    rewrite decide_False by tauto. reflexivity.
Qed.

(** Recolouring a cell changes no flag. *)
Lemma update_cell_flags self r c f self' :
  (forall x, contains_queen (f x) = contains_queen x) ->
  update_cell self r c f = Ok self' ->
  forall i j, contains_queen <$> cell_nat (grid self') i j =
              contains_queen <$> cell_nat (grid self) i j.
Proof.
  intros Hf H i j.
  apply update_cell_shape in H
    as (k1 & k2 & line & x & _ & _ & Hline & Hx & ->). cbn.
  rewrite (cell_nat_insert _ _ _ _ _ _ _ _ Hline Hx).
  destruct (decide (i = k1 /\ j = k2)) as [[-> ->] | _]; [| reflexivity].
  unfold cell_nat. rewrite Hline, Hx. cbn. rewrite Hf. reflexivity.
Qed.

Lemma occupied_nat self r c :
  square (grid_size self) (grid self) ->
  in_bounds (grid_size self) (r, c) ->
  occupied self r c <->
  contains_queen <$> cell_nat (grid self) (Z.to_nat r) (Z.to_nat c) = Some true.
Proof.
  intros Hsq Hin. unfold occupied. split.
  - intros [x [Hx Hq]]. apply (cell_at_nat self r c Hsq Hin) in Hx.
    rewrite Hx. cbn. rewrite Hq. reflexivity.
  - destruct (cell_nat _ _ _) as [x |] eqn:E; cbn; [| discriminate].
    intros [= Hq]. exists x. split; [| exact Hq].
    apply (cell_at_nat self r c Hsq Hin). exact E.
Qed.

(** Writing the flag of one in-bounds cell. *)
Lemma set_flag_occupied self r c v self' r1 c1 :
  square (grid_size self) (grid self) ->
  in_bounds (grid_size self) (r, c) ->
  in_bounds (grid_size self) (r1, c1) ->
  update_cell self r c (set_contains_queen v) = Ok self' ->
  occupied self' r1 c1 <->
  if decide ((r1, c1) = (r, c)) then v = true else occupied self r1 c1.
Proof.
  intros Hsq Hin Hin1 H.
  pose proof (update_cell_Ok _ _ _ _ _ H) as (E1 & _ & _ & Hsq' & _).
  specialize (Hsq' _ Hsq).
  rewrite (occupied_nat self' r1 c1) by (rewrite E1; assumption).
  apply update_cell_shape in H
    as (k1 & k2 & line & x & Hk1 & Hk2 & Hline & Hx & ->). cbn.
  pose proof Hin as [Hr Hc]. pose proof Hin1 as [Hr1 Hc1].
  cbn in Hr, Hc, Hr1, Hc1.
  rewrite py_pos_in_bounds in Hk1 by (destruct Hsq as [-> _]; lia).
  rewrite py_pos_in_bounds in Hk2
    by (rewrite (square_line _ _ _ _ Hsq Hline); lia).
  injection Hk1 as <-. injection Hk2 as <-.
  rewrite (cell_nat_insert _ _ _ _ _ _ _ _ Hline Hx).
  destruct (decide ((r1, c1) = (r, c))) as [[= -> ->] | Hne].
  - rewrite decide_True by auto. cbn. split; congruence.
  - rewrite (occupied_nat self r1 c1) by assumption.
    rewrite decide_False; [reflexivity |].
    intros [Ha Hb]. apply Hne. f_equal; lia.
Qed.

(** ** The search reads colours only *)

Lemma region_colors self r c :
  region self r c = let* line := py_get (colors (grid self)) r in py_get line c.
Proof.
  unfold region, cell_at, colors. rewrite py_get_fmap.
  destruct (py_get (grid self) r) as [line | e |]; cbn; try reflexivity.
  rewrite py_get_fmap. reflexivity.
Qed.

Lemma cell_at_colors a b r c :
  colors (grid a) = colors (grid b) ->
  match cell_at a r c, cell_at b r c with
  | Ok x, Ok y => color x = color y
  | Raise e, Raise e' => e = e'
  | OutOfFuel, OutOfFuel => True
  | _, _ => False
  end.
Proof.
  intros H.
  assert (Hreg : region a r c = region b r c)
    by (rewrite !region_colors, H; reflexivity).
  unfold region in Hreg.
  destruct (cell_at a r c), (cell_at b r c); cbn in Hreg;
    try discriminate; try exact I; congruence.
Qed.

Lemma is_safe_loop_colors a b r0 c0 qs :
  colors (grid a) = colors (grid b) ->
  is_safe_loop a r0 c0 qs = is_safe_loop b r0 c0 qs.
Proof.
  intros H. induction qs as [| [r c] qs IH]; cbn; [reflexivity |].
  destruct ((r =? r0) || (c =? c0)); [reflexivity |].
  destruct ((Z.abs (r0 - r) <=? 1) && (Z.abs (c0 - c) <=? 1)); [reflexivity |].
  pose proof (cell_at_colors a b r c H) as H1.
  pose proof (cell_at_colors a b r0 c0 H) as H2.
  destruct (cell_at a r c), (cell_at b r c); cbn; try contradiction;
    try congruence.
  destruct (cell_at a r0 c0), (cell_at b r0 c0); cbn; try contradiction;
    try congruence.
  rewrite H1, H2, IH. reflexivity.
Qed.

Lemma backtrack_cols_colors rec a b r cols :
  colors (grid a) = colors (grid b) ->
  queen_positions a = queen_positions b ->
  forall st, backtrack_cols rec a r cols st = backtrack_cols rec b r cols st.
Proof.
  intros H Hq. induction cols as [| c cols IH]; intros st; cbn; [reflexivity |].
  pose proof (cell_at_colors a b r c H) as H1.
  destruct (cell_at a r c) as [x | e |], (cell_at b r c) as [y | e' |]; cbn;
    try contradiction; try congruence.
  unfold is_safe. rewrite <- Hq.
  destruct (queen_positions a) as [qs |]; cbn; [| reflexivity].
  rewrite (is_safe_loop_colors a b r c qs H).
  destruct (is_safe_loop b r c qs) as [safe | e |]; cbn; try reflexivity.
  rewrite H1.
  destruct (safe && negb (bool_decide (color y ∈ s_regions st))); [| apply IH].
  destruct (rec _) as [[res st2] | e |]; cbn; try reflexivity.
  destruct (truthy res); [reflexivity |].
  destruct (py_pop (s_queens st2)) as [q | e |]; cbn; try reflexivity.
  destruct (set_remove (color y) (s_regions st2)) as [p | e |]; cbn;
    try reflexivity.
  apply IH.
Qed.

Lemma backtrack_cols_ext rec rec' self r cols :
  (forall st, rec st = rec' st) ->
  forall st, backtrack_cols rec self r cols st = backtrack_cols rec' self r cols st.
Proof.
  intros Hrec. induction cols as [| c cols IH]; intros st; cbn; [reflexivity |].
  destruct (cell_at self r c) as [x | e |]; cbn; try reflexivity.
  destruct (is_safe self r c) as [safe | e |]; cbn; try reflexivity.
  destruct (safe && negb (bool_decide (color x ∈ s_regions st))); [| apply IH].
  rewrite Hrec.
  destruct (rec' _) as [[res st2] | e |]; cbn; try reflexivity.
  destruct (truthy res); [reflexivity |].
  destruct (py_pop (s_queens st2)) as [q | e |]; cbn; try reflexivity.
  destruct (set_remove (color x) (s_regions st2)) as [p | e |]; cbn;
    try reflexivity.
  apply IH.
Qed.

(** The search gives the same answer on two boards of the same size, the same
    colouring and the same stored placement. *)
Lemma backtrack_colors a b :
  same_puzzle a b ->
  queen_positions a = queen_positions b ->
  forall fuel r st, backtrack fuel a r st = backtrack fuel b r st.
Proof.
  intros [Hn H] Hq. induction fuel as [| fuel IH]; intros r st; cbn;
    [reflexivity |].
  rewrite <- Hn. destruct (r =? grid_size a); [reflexivity |].
  rewrite (backtrack_cols_colors _ a b r _ H Hq).
  apply backtrack_cols_ext. intros st'. apply IH.
Qed.

(** ** Loops that write the occupied flags *)

Lemma same_frame_refl a :
  square (grid_size a) (grid a) -> same_frame a a.
Proof. intros H. repeat split; try reflexivity; apply H. Qed.

Lemma same_frame_trans a b c :
  same_frame a b -> same_frame b c -> same_frame a c.
Proof.
  intros (H1 & H2 & H3 & H4 & H5) (K1 & K2 & K3 & K4 & K5).
  repeat split; try congruence; apply K4.
Qed.

Lemma set_flag_frame self r c v :
  square (grid_size self) (grid self) ->
  in_bounds (grid_size self) (r, c) ->
  exists self', update_cell self r c (set_contains_queen v) = Ok self' /\
                same_frame self self'.
Proof.
  intros Hsq Hin.
  destruct (update_cell_in_bounds self r c (set_contains_queen v) Hsq Hin)
    as [self' H].
  exists self'. split; [exact H |].
  apply update_cell_Ok in H as (H1 & H2 & H3 & H4 & H5).
  split; [exact H1 |]. split; [exact H2 |]. split; [exact H3 |].
  split; [rewrite H1; apply H4, Hsq |].
  apply H5. intros x. reflexivity.
Qed.

Lemma mark_queens_frame qs : forall self,
  square (grid_size self) (grid self) ->
  Forall (in_bounds (grid_size self)) qs ->
  exists self', mark_queens self qs = Ok self' /\ same_frame self self'.
Proof.
  induction qs as [| [r c] qs IH]; intros self Hsq Hall; cbn.
  - exists self. split; [reflexivity | apply same_frame_refl, Hsq].
  - apply Forall_cons in Hall as [Hin Hall].
    destruct (set_flag_frame self r c true Hsq Hin) as [self1 [-> Hf1]]. cbn.
    pose proof Hf1 as (E1 & _ & _ & Hsq1 & _).
    destruct (IH self1 Hsq1) as [self2 [-> Hf2]]; [rewrite E1; exact Hall |].
    exists self2. split; [reflexivity | eapply same_frame_trans; eassumption].
Qed.

Lemma mark_queens_placements qs : forall self self',
  mark_queens self qs = Ok self' ->
  queen_positions self' = queen_positions self.
Proof.
  induction qs as [| [r c] qs IH]; intros self self'; cbn.
  - intros [= <-]. reflexivity.
  - destruct (update_cell self r c _) as [self1 | e |] eqn:E; cbn;
      try discriminate.
    intros H. apply IH in H. rewrite H.
    apply update_cell_Ok in E. apply E.
Qed.

Lemma reset_cols_frame r cols : forall self,
  square (grid_size self) (grid self) ->
  0 <= r < grid_size self ->
  Forall (fun c => 0 <= c < grid_size self) cols ->
  exists self', reset_cols self r cols = Ok self' /\ same_frame self self'.
Proof.
  induction cols as [| c cols IH]; intros self Hsq Hr Hall; cbn.
  - exists self. split; [reflexivity | apply same_frame_refl, Hsq].
  - apply Forall_cons in Hall as [Hc Hall].
    destruct (set_flag_frame self r c false Hsq) as [self1 [-> Hf1]];
      [split; assumption |]. cbn.
    pose proof Hf1 as (E1 & _ & _ & Hsq1 & _).
    destruct (IH self1 Hsq1) as [self2 [-> Hf2]]; [rewrite E1 .. |];
      [exact Hr | exact Hall |].
    exists self2. split; [reflexivity | eapply same_frame_trans; eassumption].
Qed.

Lemma range_bounds n : Forall (fun c => 0 <= c < n) (range n).
Proof.
  apply Forall_forall. intros c Hc. unfold range in Hc.
  apply elem_of_seqZ in Hc. lia.
Qed.

Lemma reset_rows_frame rows : forall self,
  square (grid_size self) (grid self) ->
  Forall (fun r => 0 <= r < grid_size self) rows ->
  exists self', reset_rows self rows = Ok self' /\ same_frame self self'.
Proof.
  induction rows as [| r rows IH]; intros self Hsq Hall; cbn.
  - exists self. split; [reflexivity | apply same_frame_refl, Hsq].
  - apply Forall_cons in Hall as [Hr Hall].
    destruct (reset_cols_frame r (range (grid_size self)) self Hsq Hr
                (range_bounds _)) as [self1 [-> Hf1]]. cbn.
    pose proof Hf1 as (E1 & _ & _ & Hsq1 & _).
    destruct (IH self1 Hsq1) as [self2 [-> Hf2]]; [rewrite E1; exact Hall |].
    exists self2. split; [reflexivity | eapply same_frame_trans; eassumption].
Qed.

(** [reset] on a square board: it returns, empties the stored placement and
    keeps size, colouring and history. *)
Lemma reset_square self :
  square (grid_size self) (grid self) ->
  exists self', reset self = Ok self' /\
                queen_positions self' = Some [] /\
                grid_size self' = grid_size self /\
                history self' = history self /\
                square (grid_size self') (grid self') /\
                colors (grid self') = colors (grid self).
Proof.
  intros Hsq. unfold reset.
  destruct (reset_rows_frame (range (grid_size self))
              (set_queen_positions self (Some [])) Hsq (range_bounds _))
    as [self' [-> (H1 & H2 & H3 & H4 & H5)]].
  exists self'. split; [reflexivity |].
  repeat split; try assumption; apply H4.
Qed.

Lemma is_safe_empty self r c :
  queen_positions self = Some [] -> is_safe self r c = Ok true.
Proof. unfold is_safe. intros ->. reflexivity. Qed.

(** ** The search against a stored placement that fills every row *)

Lemma is_safe_loop_row_taken self r0 c0 qs :
  square (grid_size self) (grid self) ->
  in_bounds (grid_size self) (r0, c0) ->
  Forall (in_bounds (grid_size self)) qs ->
  (exists c, (r0, c) ∈ qs) ->
  is_safe_loop self r0 c0 qs = Ok false.
Proof.
  intros Hsq Hin0. induction qs as [| [r c] qs IH]; intros Hall [c' Hc'].
  - apply elem_of_nil in Hc'. contradiction.
  - apply Forall_cons in Hall as [Hin Hall]. cbn.
    destruct (Z.eqb_spec r r0) as [-> | Hne]; [reflexivity |]. cbn.
    destruct (c =? c0); [reflexivity |].
    destruct ((Z.abs (r0 - r) <=? 1) && (Z.abs (c0 - c) <=? 1)); [reflexivity |].
    destruct (cell_at_in_bounds self r c Hsq Hin) as [a ->].
    destruct (cell_at_in_bounds self r0 c0 Hsq Hin0) as [b ->]. cbn.
    destruct (color a =? color b); [reflexivity |].
    apply IH; [exact Hall |].
    exists c'. apply elem_of_cons in Hc' as [Heq | Hc']; [congruence | exact Hc'].
Qed.

Lemma backtrack_cols_unsafe rec self r cols :
  Forall (fun c => (exists x, cell_at self r c = Ok x) /\
                   is_safe self r c = Ok false) cols ->
  forall st, backtrack_cols rec self r cols st = Ok (None, st).
Proof.
  induction cols as [| c cols IH]; intros Hall st; cbn; [reflexivity |].
  apply Forall_cons in Hall as [[[x ->] ->] Hall]. cbn.
  apply IH, Hall.
Qed.

Lemma backtrack_S fuel self r st :
  backtrack (S fuel) self r st =
  if r =? grid_size self then Ok (Some (s_queens st), st)
  else backtrack_cols (backtrack fuel self (r + 1)) self r
         (range (grid_size self)) st.
Proof. reflexivity. Qed.

Lemma backtrack_row_taken fuel self qs st :
  square (grid_size self) (grid self) ->
  queen_positions self = Some qs ->
  1 <= grid_size self ->
  Forall (in_bounds (grid_size self)) qs ->
  covers_rows (grid_size self) qs ->
  backtrack (S fuel) self 0 st = Ok (None, st).
Proof.
  intros Hsq Hq Hn Hall Hcov. rewrite backtrack_S.
  destruct (Z.eqb_spec 0 (grid_size self)); [lia |].
  apply backtrack_cols_unsafe.
  eapply Forall_impl; [apply range_bounds |].
  intros c Hc. cbn in Hc.
  assert (Hin : in_bounds (grid_size self) (0, c)) by (split; cbn; lia).
  split; [apply cell_at_in_bounds; assumption |].
  unfold is_safe. rewrite Hq.
  apply is_safe_loop_row_taken; try assumption.
  apply Hcov. lia.
Qed.

(** ** The search on a square board without stored queens *)

Lemma truthy_app (l : list pos) p t : truthy (Some (l ++ p :: t)) = true.
Proof. destruct l; reflexivity. Qed.

Lemma py_pop_snoc {A} (l : list A) x : py_pop (l ++ [x]) = Ok l.
Proof.
  unfold py_pop. rewrite removelast_last.
  destruct l; reflexivity.
Qed.

Lemma set_remove_fresh k (s : gset Z) :
  k ∉ s -> set_remove k ({[ k ]} ∪ s) = Ok s.
Proof.
  intros Hk. unfold set_remove.
  rewrite bool_decide_eq_true_2
    by (apply elem_of_union_l, elem_of_singleton; reflexivity).
  f_equal. apply set_eq. intros y.
  rewrite elem_of_difference, elem_of_union, elem_of_singleton.
  split.
  - intros [[-> | Hy] Hne]; [contradiction Hne; reflexivity | exact Hy].
  - intros Hy. split; [right; exact Hy | intros ->; contradiction].
Qed.

Section EmptyBoardSearch.

(** A square board whose stored placement is empty, as after construction or
    [reset]. *)
Variable self : Grid.
Hypothesis Hsq : square (grid_size self) (grid self).
Hypothesis Hq : queen_positions self = Some [].

Lemma tracked_start : tracked self start.
Proof.
  exists []. cbn. split; [apply Forall2_nil_2 |].
  split; [apply NoDup_nil_2 |]. intros k Hk. apply elem_of_nil in Hk. contradiction.
Qed.

Lemma tracked_commit st r c x :
  tracked self st ->
  cell_at self r c = Ok x ->
  color x ∉ s_regions st ->
  tracked self {| s_queens := s_queens st ++ [(r, c)];
                  s_regions := {[ color x ]} ∪ s_regions st |}.
Proof.
  intros (ks & Hks & Hnd & Hsub) Hx Hk.
  exists (ks ++ [color x]). cbn. split; [| split].
  - apply Forall2_app; [exact Hks |].
    apply Forall2_cons. split; [| apply Forall2_nil_2].
    unfold region. cbn. rewrite Hx. reflexivity.
  - apply NoDup_app. split; [exact Hnd |]. split.
    + intros k Hin Hin'. apply list_elem_of_singleton in Hin'. subst k.
      apply Hk, Hsub, Hin.
    + apply NoDup_singleton.
  - intros k Hin. apply elem_of_app in Hin as [Hin | Hin].
    + apply elem_of_union_r, Hsub, Hin.
    + apply list_elem_of_singleton in Hin. subst k.
      apply elem_of_union_l, elem_of_singleton. reflexivity.
Qed.

Lemma backtrack_cols_extends rec r cols :
  0 <= r < grid_size self ->
  Forall (fun c => 0 <= c < grid_size self) cols ->
  (forall st, tracked self st ->
              exists out, rec st = Ok out /\ extends self (r + 1) st out) ->
  forall st, tracked self st ->
             exists out, backtrack_cols rec self r cols st = Ok out /\
                         extends self r st out.
Proof.
  intros Hr Hcols Hrec.
  induction cols as [| c cols IH]; intros st Htr; cbn.
  - eexists. split; [reflexivity | left; reflexivity].
  - apply Forall_cons in Hcols as [Hc Hcols].
    destruct (cell_at_in_bounds self r c Hsq) as [x Hx]; [split; assumption |].
    rewrite Hx.
    cbn. rewrite (is_safe_empty _ _ _ Hq). cbn.
    destruct (bool_decide (color x ∈ s_regions st)) eqn:Ek; cbn;
      [apply IH; assumption |].
    apply bool_decide_eq_false in Ek.
    destruct (Hrec {| s_queens := s_queens st ++ [(r, c)];
                      s_regions := {[ color x ]} ∪ s_regions st |}
                (tracked_commit st r c x Htr Hx Ek))
      as [[res st2] [-> Hext]]. cbn.
    destruct Hext as [[= -> ->] | (tail & Hres & Hst2 & Hrows & Hall & Htr2)];
      [| cbn in Hres, Hst2, Htr2]; cbn.
    + rewrite py_pop_snoc. cbn. rewrite set_remove_fresh by exact Ek. cbn.
      destruct st as [q s]. cbn. apply IH; assumption.
    + subst res. rewrite <- app_assoc in Hst2 |- *.
      change ([(r, c)] ++ tail) with ((r, c) :: tail) in *.
      rewrite truthy_app.
      eexists. split; [reflexivity |]. right.
      exists ((r, c) :: tail). cbn [fst snd].
      rewrite Hst2.
      split; [reflexivity |]. split; [reflexivity |].
      split; [| split; [| exact Htr2]].
      * rewrite fmap_cons, Hrows.
        rewrite (seqZ_cons r (grid_size self - r)) by lia.
        cbn [fst]. f_equal. f_equal; lia.
      * apply Forall_cons. split; [exact Hc | exact Hall].
Qed.

(** With one unit of fuel for each remaining row and one for the base case
    the search returns. *)
Lemma backtrack_extends :
  forall fuel r st,
    0 <= r <= grid_size self ->
    (Z.to_nat (grid_size self - r) < fuel)%nat ->
    tracked self st ->
    exists out, backtrack fuel self r st = Ok out /\
                extends self r st out.
Proof.
  induction fuel as [| fuel IH]; intros r st Hr Hfuel Htr; [lia |].
  rewrite backtrack_S.
  destruct (Z.eqb_spec r (grid_size self)) as [-> | Hne].
  - eexists. split; [reflexivity |]. right. exists []. cbn.
    rewrite app_nil_r, Z.sub_diag.
    do 3 (split; [reflexivity |]). split; [apply Forall_nil_2 | exact Htr].
  - apply backtrack_cols_extends; try assumption; [lia | apply range_bounds |].
    intros st' Htr'. apply IH; [lia | lia | exact Htr'].
Qed.

End EmptyBoardSearch.

(** ** [solve] on the boards of the invariant *)

Lemma solve_unfold self :
  solve self =
  let* out := backtrack (solve_fuel self) self 0 start in
  let self1 := set_queen_positions self (fst out) in
  if negb (truthy (fst out)) then Ok ([no_solution_msg], self1)
  else
    match fst out with
    | Some qs => let* self2 := mark_queens self1 qs in Ok ([], self2)
    | None => Raise TypeError
    end.
Proof. reflexivity. Qed.

Lemma range_nonpos n : n <= 0 -> range n = [].
Proof.
  intros H. unfold range. apply seqZ_nil, H.
Qed.

Lemma range_pos n : 1 <= n -> range n = 0 :: seqZ 1 (n - 1).
Proof.
  intros H. unfold range. rewrite seqZ_cons by lia. reflexivity.
Qed.

(** Without rows there is nothing to place. *)
Lemma solve_no_rows self :
  grid_size self <= 0 ->
  exists q, solve self = Ok ([no_solution_msg], set_queen_positions self q) /\
            (q = None \/ q = Some []).
Proof.
  intros Hn. rewrite solve_unfold. unfold solve_fuel. rewrite backtrack_S.
  destruct (Z.eqb_spec 0 (grid_size self)) as [E | E]; cbn.
  - exists (Some []). split; [reflexivity | right; reflexivity].
  - rewrite range_nonpos by exact Hn. cbn.
    exists None. split; [reflexivity | left; reflexivity].
Qed.

(** After a failed [solve] the stored placement is [None], and the next
    [solve] raises [TypeError] at its first cell. *)
Lemma solve_after_None self :
  square (grid_size self) (grid self) ->
  1 <= grid_size self ->
  queen_positions self = None ->
  solve self = Raise TypeError.
Proof.
  intros Hsq Hn Hq. rewrite solve_unfold. unfold solve_fuel. rewrite backtrack_S.
  destruct (Z.eqb_spec 0 (grid_size self)); [lia |].
  rewrite range_pos by exact Hn. cbn [backtrack_cols].
  destruct (cell_at_in_bounds self 0 0 Hsq) as [x ->]; [split; cbn; lia |].
  unfold is_safe. rewrite Hq. reflexivity.
Qed.

(** After a successful [solve] every row is taken in the stored placement,
    and the next [solve] finds nothing. *)
Lemma solve_after_placement self qs :
  square (grid_size self) (grid self) ->
  queen_positions self = Some qs ->
  1 <= grid_size self ->
  Forall (in_bounds (grid_size self)) qs ->
  covers_rows (grid_size self) qs ->
  solve self = Ok ([no_solution_msg], set_queen_positions self None).
Proof.
  intros Hsq Hq Hn Hall Hcov. rewrite solve_unfold. unfold solve_fuel.
  rewrite (backtrack_row_taken _ self qs) by assumption. reflexivity.
Qed.

Lemma rows_in_bounds n (qs : list pos) :
  qs.*1 = seqZ 0 n ->
  Forall (fun p => 0 <= p.2 < n) qs ->
  Forall (in_bounds n) qs /\ covers_rows n qs.
Proof.
  intros Hrows Hcols. split.
  - apply Forall_forall. intros p Hp. split.
    + assert (H : p.1 ∈ seqZ 0 n)
        by (rewrite <- Hrows; apply list_elem_of_fmap_2, Hp).
      apply elem_of_seqZ in H. lia.
    + rewrite Forall_forall in Hcols. apply Hcols, Hp.
  - intros r Hr.
    assert (H : r ∈ qs.*1) by (rewrite Hrows; apply elem_of_seqZ; lia).
    apply list_elem_of_fmap in H as [[r' c] [-> Hp]].
    exists c. exact Hp.
Qed.

(** From a square board without stored queens [solve] returns normally:
    either it finds nothing, or it stores a placement with one in-bounds
    queen in each of the rows 0 .. n-1 and changes flags only. *)
Lemma solve_from_empty self :
  square (grid_size self) (grid self) ->
  queen_positions self = Some [] ->
  1 <= grid_size self ->
  solve self = Ok ([no_solution_msg], set_queen_positions self None) \/
  exists qs self',
    solve self = Ok ([], self') /\
    same_frame (set_queen_positions self (Some qs)) self' /\
    Forall (in_bounds (grid_size self)) qs /\
    covers_rows (grid_size self) qs /\
    qs.*1 = range (grid_size self) /\
    distinct_regions self qs.
Proof.
  intros Hsq Hq Hn. rewrite solve_unfold.
  destruct (backtrack_extends self Hsq Hq (solve_fuel self) 0 start)
    as [[res st2] [-> Hext]];
    [lia | unfold solve_fuel; lia | apply tracked_start |].
  cbn [bind fst].
  destruct Hext as [[= -> ->] | (tail & H1 & H2 & H3 & H4 & H5)];
    [left; reflexivity |].
  cbn in H1, H2, H5. subst res. rewrite Z.sub_0_r in H3.
  assert (Hreg : distinct_regions self tail).
  { destruct H5 as (ks & Hks & Hnd & _). rewrite H2 in Hks.
    exists ks. split; assumption. }
  destruct (rows_in_bounds _ _ H3 H4) as [Hall Hcov].
  destruct tail as [| p t].
  - rewrite seqZ_cons in H3 by lia. discriminate H3.
  - right. cbn [truthy negb].
    destruct (mark_queens_frame (p :: t)
                (set_queen_positions self (Some (p :: t))) Hsq Hall)
      as [self' [-> Hf]].
    exists (p :: t), self'. cbn [bind].
    split; [reflexivity |]. split; [exact Hf |].
    split; [exact Hall |]. split; [exact Hcov |]. split; assumption.
Qed.

Lemma solve_success_placement self self' :
  solve self = Ok ([], self') ->
  exists qs st,
    backtrack (solve_fuel self) self 0 start = Ok (Some qs, st) /\
    truthy (Some qs) = true /\
    mark_queens (set_queen_positions self (Some qs)) qs = Ok self' /\
    queen_positions self' = Some qs.
Proof.
  rewrite solve_unfold.
  destruct (backtrack _ _ _ _) as [[res st] | e |]; cbn [bind fst];
    try discriminate.
  destruct res as [[| p t] |]; cbn [truthy negb]; try discriminate.
  destruct (mark_queens _ _) as [self2 | e |] eqn:E; cbn [bind];
    try discriminate.
  intros [= <-]. exists (p :: t), st.
  split; [reflexivity |]. split; [reflexivity |]. split; [exact E |].
  apply mark_queens_placements in E. exact E.
Qed.

(** [solve] keeps the invariant and the puzzle, and it succeeds only from a
    board without stored queens. *)
Lemma solve_inv self out self' :
  board_inv self ->
  solve self = Ok (out, self') ->
  board_inv self' /\ same_puzzle self self' /\
  (out = [] -> queen_positions self = Some []).
Proof.
  intros [Hsq Hh Hp] H.
  destruct (Z_le_gt_dec (grid_size self) 0) as [Hn | Hn].
  { destruct (solve_no_rows self Hn) as [q [E Hq]].
    rewrite E in H. injection H as <- <-.
    split; [| split; [split; reflexivity | discriminate]].
    split; cbn; [exact Hsq | exact Hh |].
    destruct Hq as [-> | ->]; cbn; [exact I | left; reflexivity]. }
  assert (Hfail : solve self =
                  Ok ([no_solution_msg], set_queen_positions self None) ->
                  board_inv self' /\ same_puzzle self self' /\
                  (out = [] -> queen_positions self = Some [])).
  { intros E. rewrite E in H. injection H as <- <-.
    split; [| split; [split; reflexivity | discriminate]].
    split; cbn; [exact Hsq | exact Hh | exact I]. }
  destruct (queen_positions self) as [qs |] eqn:Hq.
  - destruct Hp as [-> | (_ & Hall & Hcov)].
    + destruct (solve_from_empty self Hsq Hq) as [E | (qs & s & E & Hf & Hall & Hcov & _)];
        [lia | apply Hfail, E |].
      rewrite E in H. injection H as <- <-.
      destruct Hf as (F1 & F2 & F3 & F4 & F5). cbn in F1, F2, F3.
      split; [| split; [split; [congruence | exact (eq_sym F5)] | reflexivity]].
      split; [exact F4 | congruence |].
      rewrite F1, F2. right. split; [lia | split; assumption].
    + apply Hfail. eapply solve_after_placement; try eassumption. lia.
  - rewrite solve_after_None in H by (assumption || lia). discriminate H.
Qed.

(** ** The invariant holds on every reachable board *)

Lemma Grid_init_square n :
  square n ((fun r => (fun c => Cell_init r c 0) <$> range n) <$> range n).
Proof.
  split.
  - rewrite length_fmap. unfold range. apply length_seqZ.
  - apply Forall_fmap, Forall_forall. intros r _. cbn.
    rewrite length_fmap. unfold range. apply length_seqZ.
Qed.

Lemma Grid_init_inv n self : Grid_init n = Ok self -> board_inv self.
Proof.
  intros [= <-]. split; cbn.
  - apply Grid_init_square.
  - reflexivity.
  - left. reflexivity.
Qed.

Lemma update_cell_inv self r c f self' :
  board_inv self -> update_cell self r c f = Ok self' -> board_inv self'.
Proof.
  intros [Hsq Hh Hp] H.
  apply update_cell_Ok in H as (H1 & H2 & H3 & H4 & _).
  split.
  - rewrite H1. apply H4, Hsq.
  - congruence.
  - rewrite H1, H2. exact Hp.
Qed.

Lemma reset_inv self self' :
  board_inv self -> reset self = Ok self' ->
  board_inv self' /\ same_puzzle self self' /\ queen_positions self' = Some [].
Proof.
  intros [Hsq Hh Hp] H.
  destruct (reset_square self Hsq) as [s (E & H1 & H2 & H3 & H4 & H5)].
  rewrite E in H. injection H as ->.
  split; [| split; [split; congruence | exact H1]].
  split; [exact H4 | congruence |].
  rewrite H1. left. reflexivity.
Qed.

Lemma undo_inv self self' :
  board_inv self -> undo self = Ok self' -> self' = self.
Proof.
  intros [_ Hh _]. unfold undo. rewrite Hh. intros [= <-]. reflexivity.
Qed.

Lemma run_op_inv self o self' :
  board_inv self -> run_op self o = Ok self' -> board_inv self'.
Proof.
  intros Hinv. destruct o as [r c k | | |]; cbn.
  - apply update_cell_inv, Hinv.
  - destruct (solve self) as [[out s] | e |] eqn:E; cbn; try discriminate.
    intros [= <-]. eapply solve_inv; eassumption.
  - intros H. eapply reset_inv; eassumption.
  - intros H. apply (undo_inv _ _ Hinv) in H. subst self'. exact Hinv.
Qed.

Lemma reachable_inv self : reachable self -> board_inv self.
Proof.
  induction 1 as [n self H | self o self' _ IH H].
  - eapply Grid_init_inv, H.
  - eapply run_op_inv; eassumption.
Qed.

(** ** The flags after the loops of [solve] and [reset] *)

Lemma mark_queens_occupied qs : forall self self' r1 c1,
  square (grid_size self) (grid self) ->
  Forall (in_bounds (grid_size self)) qs ->
  in_bounds (grid_size self) (r1, c1) ->
  mark_queens self qs = Ok self' ->
  occupied self' r1 c1 <-> occupied self r1 c1 \/ (r1, c1) ∈ qs.
Proof.
  induction qs as [| [r c] qs IH]; intros self self' r1 c1 Hsq Hall Hin1; cbn.
  - intros [= <-]. rewrite elem_of_nil. tauto.
  - apply Forall_cons in Hall as [Hin Hall].
    destruct (update_cell self r c _) as [s | e |] eqn:E; cbn; try discriminate.
    intros H.
    pose proof (update_cell_Ok _ _ _ _ _ E) as (E1 & _ & _ & Hsq' & _).
    specialize (Hsq' _ Hsq). rewrite <- E1 in Hsq', Hall, Hin1.
    rewrite (IH s self' r1 c1 Hsq' Hall Hin1 H). rewrite E1 in Hin1.
    rewrite (set_flag_occupied self r c true s r1 c1 Hsq Hin Hin1 E).
    rewrite elem_of_cons.
    destruct (decide ((r1, c1) = (r, c))) as [-> | Hne]; tauto.
Qed.

Lemma reset_cols_occupied r cols : forall self self' r1 c1,
  square (grid_size self) (grid self) ->
  0 <= r < grid_size self ->
  Forall (fun c => 0 <= c < grid_size self) cols ->
  in_bounds (grid_size self) (r1, c1) ->
  reset_cols self r cols = Ok self' ->
  occupied self' r1 c1 <-> occupied self r1 c1 /\ ~ (r1 = r /\ c1 ∈ cols).
Proof.
  induction cols as [| c cols IH]; intros self self' r1 c1 Hsq Hr Hall Hin1; cbn.
  - intros [= <-]. rewrite elem_of_nil. tauto.
  - apply Forall_cons in Hall as [Hc Hall].
    destruct (update_cell self r c _) as [s | e |] eqn:E; cbn; try discriminate.
    intros H.
    pose proof (update_cell_Ok _ _ _ _ _ E) as (E1 & _ & _ & Hsq' & _).
    specialize (Hsq' _ Hsq). rewrite <- E1 in Hsq', Hall, Hin1, Hr.
    rewrite (IH s self' r1 c1 Hsq' Hr Hall Hin1 H). rewrite E1 in Hin1, Hr.
    rewrite (set_flag_occupied self r c false s r1 c1 Hsq (conj Hr Hc) Hin1 E).
    rewrite elem_of_cons.
    destruct (decide ((r1, c1) = (r, c))) as [[= -> ->] | Hne].
    + split; [intros [? _]; discriminate | intros [_ Hn]; contradiction Hn; auto].
    + split; [intros [Ho Hn]; split; [exact Ho |] | intros [Ho Hn]; split; [exact Ho |]].
      * intros [-> [-> | Hc1]]; [contradiction Hne; reflexivity | apply Hn; auto].
      * intros [-> Hc1]. apply Hn. auto.
Qed.

Lemma reset_rows_occupied rows : forall self self' r1 c1,
  square (grid_size self) (grid self) ->
  Forall (fun r => 0 <= r < grid_size self) rows ->
  in_bounds (grid_size self) (r1, c1) ->
  reset_rows self rows = Ok self' ->
  occupied self' r1 c1 <-> occupied self r1 c1 /\ r1 ∉ rows.
Proof.
  induction rows as [| r rows IH]; intros self self' r1 c1 Hsq Hall Hin1; cbn.
  - intros [= <-]. rewrite elem_of_nil. tauto.
  - apply Forall_cons in Hall as [Hr Hall].
    destruct (reset_cols self r _) as [s | e |] eqn:E; cbn; try discriminate.
    intros H.
    destruct (reset_cols_frame r (range (grid_size self)) self Hsq Hr
                (range_bounds _)) as [s' [E' (E1 & _ & _ & Hsq' & _)]].
    rewrite E in E'. injection E' as <-.
    rewrite <- E1 in Hall, Hin1.
    rewrite (IH s self' r1 c1 Hsq' Hall Hin1 H). rewrite E1 in Hin1.
    rewrite (reset_cols_occupied r _ self s r1 c1 Hsq Hr (range_bounds _) Hin1 E).
    rewrite elem_of_cons.
    assert (Hc1 : c1 ∈ range (grid_size self))
      by (unfold range; apply elem_of_seqZ; destruct Hin1 as [_ Hc1]; cbn in Hc1; lia).
    tauto.
Qed.

(** After [reset] no in-bounds cell is flagged. *)
Lemma reset_clears self self' r c :
  square (grid_size self) (grid self) ->
  in_bounds (grid_size self) (r, c) ->
  reset self = Ok self' ->
  ~ occupied self' r c.
Proof.
  intros Hsq Hin H. unfold reset in H.
  rewrite (reset_rows_occupied _ (set_queen_positions self (Some [])) self'
             r c Hsq (range_bounds _) Hin H).
  intros [_ Hn]. apply Hn. unfold range. cbn. apply elem_of_seqZ.
  destruct Hin as [Hr _]. cbn in Hr. lia.
Qed.

(** ** Flags and stored placement on the reachable boards *)

Lemma Grid_init_flags n self : Grid_init n = Ok self -> flags_agree self.
Proof.
  intros [= <-] qs [= <-] r c Hin. rewrite elem_of_nil.
  split; [| contradiction].
  intros [x [Hx Hq]].
  apply cell_at_Ok in Hx as (line & k1 & k2 & _ & _ & _ & Hx).
  unfold cell_nat in Hx. cbn in Hx.
  rewrite list_lookup_fmap in Hx.
  destruct (range n !! k1) as [r' |]; cbn in Hx; [| discriminate].
  rewrite list_lookup_fmap in Hx.
  destruct (range n !! k2) as [c' |]; cbn in Hx; [| discriminate].
  injection Hx as <-. discriminate Hq.
Qed.

Lemma set_region_flags self r c k self' :
  board_inv self -> flags_agree self ->
  set_region self r c k = Ok self' -> flags_agree self'.
Proof.
  intros [Hsq _ _] Hfl H qs Hq r1 c1 Hin.
  pose proof (update_cell_Ok _ _ _ _ _ H) as (E1 & E2 & _ & Hsq' & _).
  specialize (Hsq' _ Hsq). rewrite E1 in Hin. rewrite E2 in Hq.
  rewrite <- (Hfl qs Hq r1 c1 Hin).
  rewrite (occupied_nat self' r1 c1) by (rewrite E1; assumption).
  rewrite (occupied_nat self r1 c1) by assumption.
  rewrite (update_cell_flags self r c (set_color k) self' (fun x => eq_refl) H).
  reflexivity.
Qed.

Lemma reset_flags self self' :
  board_inv self -> reset self = Ok self' -> flags_agree self'.
Proof.
  intros Hinv H qs Hq r c Hin.
  destruct (reset_inv _ _ Hinv H) as (_ & [E1 _] & E2).
  rewrite E2 in Hq. injection Hq as <-. rewrite elem_of_nil.
  split; [| contradiction].
  rewrite <- E1 in Hin.
  apply (reset_clears self self' r c (inv_square _ Hinv) Hin H).
Qed.

Lemma solve_flags self out self' :
  board_inv self -> flags_agree self ->
  solve self = Ok (out, self') -> flags_agree self'.
Proof.
  intros Hinv Hfl H qs Hq r c Hin.
  destruct (solve_inv _ _ _ Hinv H) as (Hinv' & [E1 _] & Hempty).
  destruct out as [| msg out].
  - specialize (Hempty eq_refl).
    apply solve_success_placement in H as (qs' & _ & _ & _ & Hmark & Hq').
    assert (qs' = qs) as -> by congruence.
    pose proof (inv_placement _ Hinv') as Hp. rewrite Hq in Hp.
    rewrite <- E1 in Hin, Hp.
    assert (Hall : Forall (in_bounds (grid_size self)) qs).
    { destruct Hp as [-> | (_ & Hall & _)]; [apply Forall_nil_2 | exact Hall]. }
    rewrite (mark_queens_occupied qs (set_queen_positions self (Some qs)) self'
               r c (inv_square _ Hinv) Hall Hin Hmark).
    assert (Hno : ~ occupied (set_queen_positions self (Some qs)) r c).
    { rewrite (occupied_grid self (set_queen_positions self (Some qs)))
        by reflexivity.
      rewrite (Hfl [] Hempty r c Hin). apply not_elem_of_nil. }
    tauto.
  - destruct (Z_le_gt_dec (grid_size self) 0) as [Hn | Hn].
    { destruct Hin as [Hr _]. cbn in Hr. lia. }
    exfalso.
    destruct (queen_positions self) as [qs0 |] eqn:Hq0.
    + pose proof (inv_placement _ Hinv) as Hp. rewrite Hq0 in Hp.
      assert (Hfail : solve self =
                      Ok ([no_solution_msg], set_queen_positions self None) -> False).
      { intros E. rewrite E in H. injection H as _ _ <-. discriminate Hq. }
      destruct Hp as [-> | (_ & Hall & Hcov)].
      * destruct (solve_from_empty self (inv_square _ Hinv) Hq0)
          as [E | (qs1 & s & E & _)]; [lia | exact (Hfail E) |].
        rewrite E in H. discriminate H.
      * apply Hfail. eapply solve_after_placement; try eassumption;
          [apply Hinv | lia].
    + rewrite solve_after_None in H by (try apply Hinv; assumption || lia).
      discriminate H.
Qed.

Lemma run_op_flags self o self' :
  board_inv self -> flags_agree self ->
  run_op self o = Ok self' -> flags_agree self'.
Proof.
  intros Hinv Hfl. destruct o as [r c k | | |]; cbn.
  - apply set_region_flags; assumption.
  - destruct (solve self) as [[out s] | e |] eqn:E; cbn; try discriminate.
    intros [= <-]. eapply solve_flags; eassumption.
  - apply reset_flags, Hinv.
  - intros H. apply (undo_inv _ _ Hinv) in H. subst self'. exact Hfl.
Qed.

Lemma reachable_flags self : reachable self -> flags_agree self.
Proof.
  induction 1 as [n self H | self o self' Hr IH H].
  - eapply Grid_init_flags, H.
  - eapply run_op_flags; try eassumption. apply reachable_inv, Hr.
Qed.

(** ** What the operations do on every reachable board *)

Lemma region_same_colors a b r c :
  colors (grid a) = colors (grid b) -> region a r c = region b r c.
Proof. intros H. rewrite !region_colors, H. reflexivity. Qed.


(** A placement that [solve] finds on a reachable board has one queen in each
    of the rows 0 .. n-1, in that order, every queen on the board, and all
    queens in different regions.  (Nothing is said of columns and of
    adjacency.) *)
Lemma solve_placement_shape self self1 qs :
  reachable self ->
  solve self = Ok ([], self1) ->
  queen_positions self1 = Some qs ->
  length qs = Z.to_nat (grid_size self1) /\
  qs.*1 = range (grid_size self1) /\
  distinct_rows qs /\
  Forall (in_bounds (grid_size self1)) qs /\
  distinct_regions self1 qs.
Proof.
  intros Hreach Hs Hqs. pose proof (reachable_inv _ Hreach) as Hinv.
  destruct (solve_inv _ _ _ Hinv Hs) as (_ & _ & Hempty).
  specialize (Hempty eq_refl).
  destruct (Z_le_gt_dec (grid_size self) 0) as [Hn | Hn].
  { destruct (solve_no_rows self Hn) as [q [E _]]. rewrite E in Hs.
    discriminate Hs. }
  destruct (solve_from_empty self (inv_square _ Hinv) Hempty)
    as [E | (qs' & s & E & Hf & Hall & _ & Hrows & Hreg)]; [lia | |].
  { rewrite E in Hs. discriminate Hs. }
  rewrite E in Hs. injection Hs as ->.
  destruct Hf as (F1 & F2 & _ & _ & F5). cbn in F1, F2.
  assert (qs' = qs) as -> by congruence.
  rewrite F1.
  assert (Hlen : length qs = Z.to_nat (grid_size self)).
  { transitivity (length (qs.*1)); [symmetry; apply length_fmap |].
    rewrite Hrows. unfold range. apply length_seqZ. }
  split; [exact Hlen |]. split; [exact Hrows |].
  split; [unfold distinct_rows; rewrite Hrows; apply NoDup_seqZ |].
  split; [exact Hall |].
  destruct Hreg as (ks & Hks & Hnd). exists ks. split; [| exact Hnd].
  eapply Forall2_impl; [exact Hks |]. intros p k Hk. cbn in Hk |- *.
  rewrite <- Hk. apply region_same_colors. exact F5.
Qed.

(** On a reachable board, a [solve] that follows a successful [solve] finds
    nothing: every row is taken in the stored placement that [is_safe]
    reads. *)
Lemma solve_again_finds_nothing self self1 :
  reachable self ->
  solve self = Ok ([], self1) ->
  solve self1 = Ok ([no_solution_msg], set_queen_positions self1 None).
Proof.
  intros Hreach Hs. pose proof (reachable_inv _ Hreach) as Hinv.
  destruct (solve_inv _ _ _ Hinv Hs) as ([Hsq1 _ Hp1] & _ & _).
  apply solve_success_placement in Hs as (qs & _ & _ & Htr & _ & Hq).
  rewrite Hq in Hp1.
  destruct Hp1 as [-> | (Hn & Hall & Hcov)]; [discriminate Htr |].
  eapply solve_after_placement; eassumption.
Qed.

(** No operation ever records an edit, so [undo] never changes a reachable
    board. *)
Lemma undo_reachable self :
  reachable self -> history self = [] /\ undo self = Ok self.
Proof.
  intros Hreach. pose proof (reachable_inv _ Hreach) as [_ Hh _].
  split; [exact Hh |]. unfold undo. rewrite Hh. reflexivity.
Qed.

(** * Properties stated by the specification *)

(** ** The search consults the board's stored placement, not the partial one *)

(** C1. On the 2x2 board whose rows are the regions 0 and 1, [solve] finds
    the placement [(0,0); (1,0)]: two queens in column 0, on adjacent cells.
    The placement it returns is therefore not always free of column and
    adjacency conflicts. *)
Theorem solve_returns_column_conflict :
  solved_with board2_rows [(0, 0); (1, 0)] /\
  grid_size board2_rows = 2 /\
  ~ distinct_cols [(0, 0); (1, 0)] /\
  ~ no_adjacent [(0, 0); (1, 0)].
Proof.
  split; [| split; [reflexivity | split]].
  - eexists. split; [vm_compute; reflexivity | split; reflexivity].
  - unfold distinct_cols. cbn. intros Hnd.
    apply NoDup_cons_1_1 in Hnd. apply Hnd. left.
  - intros Hadj.
    specialize (Hadj 0%nat 1%nat (0, 0) (1, 0)).
    cbn in Hadj. unfold chebyshev in Hadj. cbn in Hadj.
    assert (1 < 1) by (apply Hadj; [lia | reflexivity | reflexivity]). lia.
Qed.

(** C2. In the run of [solve] on that board, the call of [backtrack] at row 1
    with the partial placement [(0,0)] commits column 0, and this is the
    placement that [solve] stores, although [is_safe (1,0)] is false against
    that partial placement: the test that the search performs reads the
    board's stored placement, which is still empty. *)
Theorem commit_ignores_partial_placement :
  (exists st,
      backtrack 2 board2_rows 1
        {| s_queens := [(0, 0)]; s_regions := {[ 0 ]} |} =
      Ok (Some [(0, 0); (1, 0)], st)) /\
  solved_with board2_rows [(0, 0); (1, 0)] /\
  is_safe (set_queen_positions board2_rows (Some [(0, 0)])) 1 0 = Ok false /\
  is_safe board2_rows 1 0 = Ok true.
Proof.
  split; [eexists; vm_compute; reflexivity |].
  split; [| split; reflexivity].
  eexists. split; [vm_compute; reflexivity | split; reflexivity].
Qed.

(** C5. On the 1x1 board as constructed, a first [solve] finds the placement
    [(0,0)] and a second [solve], called right after it, reports that there
    is no solution. *)
Theorem solve_twice_differs :
  solve board1 = Ok ([], board1_solved) /\
  queen_positions board1_solved = Some [(0, 0)] /\
  no_solution board1_solved.
Proof.
  split; [vm_compute; reflexivity |].
  split; [reflexivity |].
  eexists. vm_compute. reflexivity.
Qed.

(** C6. On a 2x2 board in which the two cells of row 0 share a region (and
    so do the two cells of row 1), [solve] finds a placement instead of
    reporting that there is none. *)
Theorem solve_two_by_two_finds_placement :
  grid_size board2_rows = 2 /\
  region board2_rows 0 0 = Ok 0 /\ region board2_rows 0 1 = Ok 0 /\
  solved_with board2_rows [(0, 0); (1, 0)] /\
  ~ no_solution board2_rows.
Proof.
  split; [reflexivity | split; [reflexivity | split; [reflexivity | split]]].
  - eexists. split; [vm_compute; reflexivity | split; reflexivity].
  - intros [self' H]. vm_compute in H. discriminate H.
Qed.

(** ** Failure of [solve] *)

(** C3, as the code has it. When [solve] reports that there is no solution,
    every cell (its region and its occupied flag), the size and the edit
    history are what they were before the call; the stored placement is
    replaced by the empty result of the search ([None], or the empty list). *)
Theorem solve_failure_keeps_cells self self' :
  solve self = Ok ([no_solution_msg], self') ->
  grid self' = grid self /\
  (forall r c, occupied self' r c <-> occupied self r c) /\
  grid_size self' = grid_size self /\
  history self' = history self /\
  (queen_positions self' = None \/ queen_positions self' = Some []).
Proof.
  unfold solve. intros H.
  destruct (backtrack _ _ _ _) as [[res st] | e |]; cbn in H; try discriminate H.
  destruct res as [[| q qs] |]; cbn in H.
  - injection H as <-. cbn.
    split; [reflexivity |].
    split; [intros r c; apply occupied_grid; reflexivity |]. tauto.
  - match type of H with
    | bind ?m _ = _ => destruct m; cbn in H; discriminate H
    end.
  - injection H as <-. cbn.
    split; [reflexivity |].
    split; [intros r c; apply occupied_grid; reflexivity |]. tauto.
Qed.

Lemma solve_failure_keeps_cells_witness :
  exists self',
    solve board2 = Ok ([no_solution_msg], self') /\
    grid self' = grid board2 /\
    (queen_positions self' = None \/ queen_positions self' = Some []).
Proof.
  eexists. split; [vm_compute; reflexivity |].
  pose proof (solve_failure_keeps_cells board2 _ eq_refl) as H.
  split; [apply H | apply H].
Defined.

(** C3, as stated, fails on the 1x1 board after one [solve]: the stored
    placement is [(0,0)] before the second [solve], which finds nothing, and
    [None] after it. *)
Lemma solve_failure_overwrites_placements :
  exists self',
    queen_positions board1_solved = Some [(0, 0)] /\
    solve board1_solved = Ok ([no_solution_msg], self') /\
    queen_positions self' = None /\
    queen_positions self' <> queen_positions board1_solved.
Proof.
  eexists. split; [reflexivity |].
  split; [vm_compute; reflexivity |].
  split; [reflexivity | discriminate].
Qed.

(** C4, as the code has it. On every reachable board that stores a placement
    (the attribute is a list, not the [None] of a failed [solve]), an
    in-bounds cell is flagged as occupied exactly when it is in the stored
    placement; in particular, after a [solve] that finds a placement, the
    flagged cells are exactly the cells of that placement. *)
Theorem occupied_iff_in_stored_placement self :
  reachable self ->
  (forall r c,
      queen_positions self <> None ->
      in_bounds (grid_size self) (r, c) ->
      occupied self r c <-> in_placements self r c) /\
  (forall self' qs r c,
      solve self = Ok ([], self') ->
      queen_positions self' = Some qs ->
      in_bounds (grid_size self') (r, c) ->
      occupied self' r c <-> (r, c) ∈ qs).
Proof.
  intros Hreach. split.
  - intros r c Hq Hin.
    destruct (queen_positions self) as [qs |] eqn:E; [| contradiction].
    rewrite (reachable_flags self Hreach qs E r c Hin).
    unfold in_placements. rewrite E. split.
    + intros H. exists qs. auto.
    + intros [qs' [[= <-] H]]. exact H.
  - intros self' qs r c Hs Hq Hin.
    apply (reachable_flags self'); [| exact Hq | exact Hin].
    apply (reachable_step self Op_solve); [exact Hreach |].
    cbn. rewrite Hs. reflexivity.
Qed.

Lemma occupied_iff_in_stored_placement_witness :
  exists self',
    solve board1 = Ok ([], self') /\
    (occupied self' 0 0 <-> (0, 0) ∈ [(0, 0)]).
Proof.
  exists (unwrap (run_op board1 Op_solve)).
  split; [vm_compute; reflexivity |].
  apply (occupied_iff_in_stored_placement board1
           (reachable_init 1 board1 eq_refl));
    [vm_compute; reflexivity | reflexivity |].
  unfold in_bounds. vm_compute. repeat split; congruence.
Defined.

(** C4, as stated, fails after two [solve] calls on the 1x1 board as
    constructed: the cell (0,0) is still flagged as occupied while the stored
    placement is [None], on a reachable board. *)
Lemma occupied_flag_stale_after_failed_solve :
  reachable board1_failed /\
  queen_positions board1_failed = None /\
  in_bounds (grid_size board1_failed) (0, 0) /\
  occupied board1_failed 0 0 /\
  ~ in_placements board1_failed 0 0.
Proof.
  split.
  - eapply reachable_step with (o := Op_solve);
      [eapply reachable_step with (o := Op_solve);
       [apply (reachable_init 1); reflexivity |] |];
      vm_compute; reflexivity.
  - split; [reflexivity |]. split; [| split].
    + unfold in_bounds. vm_compute. repeat split; congruence.
    + eexists. split; [vm_compute; reflexivity | reflexivity].
    + intros [qs [H _]]. vm_compute in H. discriminate H.
Qed.

(** ** Construction *)

(** C7, as the code has it. Construction never fails. For every [n] it yields
    a board of [n] rows of [n] cells (no cell at all when [n <= 0]) in which
    every cell is in region 0 and unoccupied, with an empty placement and an
    empty edit history. *)
Theorem Grid_init_total n :
  exists self,
    Grid_init n = Ok self /\
    grid_size self = n /\
    square n (grid self) /\
    Forall (Forall (fun x => color x = 0 /\ contains_queen x = false)) (grid self) /\
    queen_positions self = Some [] /\
    history self = [].
Proof.
  eexists. split; [reflexivity |]. cbn.
  split; [reflexivity |].
  split; [apply Grid_init_square |].
  split; [| split; reflexivity].
  apply Forall_fmap, Forall_forall. intros r _. cbn.
  apply Forall_fmap, Forall_forall. intros c _. cbn. split; reflexivity.
Qed.

(** C7, as stated, fails at size 0 (and at -1): the constructor returns a
    board, one without cells. *)
Lemma Grid_init_accepts_zero :
  Grid_init 0 = Ok {| grid_size := 0; grid := [];
                      queen_positions := Some []; history := [] |} /\
  Grid_init (-1) = Ok {| grid_size := -1; grid := [];
                         queen_positions := Some []; history := [] |}.
Proof. split; reflexivity. Qed.

(** ** Edit history *)

(** C9. Recolouring the cell (0,0) of the 2x2 board from region 0 to region 1
    leaves the edit history empty, and the [undo] that follows changes
    nothing: the cell stays in region 1. *)
Theorem set_region_records_nothing :
  exists a b,
    region board2 0 0 = Ok 0 /\
    set_region board2 0 0 1 = Ok a /\
    history a = [] /\
    undo a = Ok b /\
    region b 0 0 = Ok 1.
Proof.
  do 2 eexists.
  split; [reflexivity |].
  split; [vm_compute; reflexivity |].
  split; [reflexivity |].
  split; [vm_compute; reflexivity | reflexivity].
Qed.

(** ** The search from a board without stored queens *)

Lemma backtrack_cols_region rec rec' self r cols :
  queen_positions self = Some [] ->
  (forall st, rec st = rec' st) ->
  forall st, backtrack_cols rec self r cols st = region_cols rec' self r cols st.
Proof.
  intros Hq Hrec.
  induction cols as [| c cols IH]; intros st; cbn; [reflexivity |].
  destruct (cell_at self r c) as [cell | e |]; cbn; try reflexivity.
  rewrite (is_safe_empty _ _ _ Hq). cbn.
  destruct (bool_decide (color cell ∈ s_regions st)); cbn; [apply IH |].
  rewrite Hrec.
  destruct (rec' _) as [[res st2] | e |]; cbn; try reflexivity.
  destruct (truthy res); [reflexivity |].
  destruct (py_pop (s_queens st2)) as [q | e |]; cbn; try reflexivity.
  destruct (set_remove (color cell) (s_regions st2)) as [p | e |]; cbn;
    try reflexivity.
  apply IH.
Qed.

(** C10. On a board whose stored placement is empty, [is_safe] answers true
    for every cell (the in-bounds ones included), and the search of [solve]
    is the search in which a column is skipped only when its region is in the
    used-region set. *)
Theorem empty_placement_prunes_by_region_only self :
  queen_positions self = Some [] ->
  (forall r c, is_safe self r c = Ok true) /\
  (forall fuel r st, backtrack fuel self r st = region_search fuel self r st).
Proof.
  intros Hq. split.
  - intros r c. apply is_safe_empty, Hq.
  - induction fuel as [| fuel IH]; intros r st; cbn; [reflexivity |].
    destruct (r =? grid_size self); [reflexivity |].
    apply backtrack_cols_region; [exact Hq | intros st'; apply IH].
Qed.

Lemma empty_placement_prunes_by_region_only_witness :
  queen_positions board2_rows = Some [] /\
  is_safe board2_rows 1 0 = Ok true /\
  backtrack (solve_fuel board2_rows) board2_rows 0 start =
  region_search (solve_fuel board2_rows) board2_rows 0 start.
Proof.
  split; [reflexivity |].
  split;
    apply (empty_placement_prunes_by_region_only board2_rows); reflexivity.
Defined.

(** ** [reset] followed by [solve] *)

Lemma solve_same_puzzle a b a' qs :
  same_puzzle a b ->
  queen_positions a = queen_positions b ->
  square (grid_size b) (grid b) ->
  Forall (in_bounds (grid_size b)) qs ->
  solve a = Ok ([], a') ->
  queen_positions a' = Some qs ->
  solved_with b qs.
Proof.
  intros Hsame Hq Hsq Hall Ha Hqs.
  apply solve_success_placement in Ha as (qs' & st & Hbt & Htr & _ & Hq').
  assert (qs' = qs) as -> by congruence.
  unfold solved_with. rewrite solve_unfold.
  assert (Hfuel : solve_fuel b = solve_fuel a)
    by (unfold solve_fuel; destruct Hsame as [-> _]; reflexivity).
  rewrite Hfuel, <- (backtrack_colors a b Hsame Hq), Hbt.
  cbn [bind fst]. rewrite Htr. cbn [negb].
  destruct (mark_queens_frame qs (set_queen_positions b (Some qs)) Hsq Hall)
    as [b' [E Hf]].
  exists b'. rewrite E. cbn [bind].
  split; [reflexivity |]. split; [| reflexivity].
  destruct Hf as (_ & F2 & _). exact F2.
Qed.

(** C8. On every reachable board, when [solve] finds a placement, a [reset]
    of the resulting board returns normally and leaves size and colouring as
    they were before the first [solve], and the [solve] that follows finds
    the same placement. *)
Theorem reset_then_solve_same_placement self self1 qs :
  reachable self ->
  solve self = Ok ([], self1) ->
  queen_positions self1 = Some qs ->
  exists self2,
    reset self1 = Ok self2 /\
    same_puzzle self self2 /\
    solved_with self2 qs.
Proof.
  intros Hreach Hsolve Hqs.
  pose proof (reachable_inv _ Hreach) as Hinv.
  destruct (solve_inv _ _ _ Hinv Hsolve) as (Hinv1 & Hsame1 & Hempty).
  specialize (Hempty eq_refl).
  destruct (reset_square self1 (inv_square _ Hinv1))
    as [self2 (E & H1 & H2 & H3 & H4 & H5)].
  exists self2. split; [exact E |].
  assert (Hsame : same_puzzle self self2).
  { destruct Hsame1 as [S1 S2]. split; congruence. }
  split; [exact Hsame |].
  apply (solve_same_puzzle self self2 self1 qs); try assumption.
  - congruence.
  - pose proof (inv_placement _ Hinv1) as Hp. rewrite Hqs in Hp.
    apply solve_success_placement in Hsolve as (qs' & _ & _ & Htr & _ & Hq').
    assert (qs' = qs) as -> by congruence.
    destruct Hp as [-> | (_ & Hall & _)]; [discriminate Htr |].
    rewrite H2. exact Hall.
Qed.

Lemma reset_then_solve_same_placement_witness :
  exists self1 self2,
    solve board1 = Ok ([], self1) /\
    reset self1 = Ok self2 /\
    same_puzzle board1 self2 /\
    solved_with self2 [(0, 0)].
Proof.
  eexists.
  assert (Hs : solve board1 = Ok ([], unwrap (run_op board1 Op_solve)))
    by (vm_compute; reflexivity).
  destruct (reset_then_solve_same_placement board1 _ [(0, 0)]
              (reachable_init 1 board1 eq_refl) Hs eq_refl)
    as [self2 H].
  exists self2. split; [exact Hs | exact H].
Defined.

(** * Further properties of the code *)

(** ** [is_safe] on a well-formed board *)

Lemma region_in_bounds self r c :
  square (grid_size self) (grid self) ->
  in_bounds (grid_size self) (r, c) ->
  exists x, cell_at self r c = Ok x /\ region self r c = Ok (color x).
Proof.
  intros Hsq Hin. destruct (cell_at_in_bounds self r c Hsq Hin) as [x Hx].
  exists x. split; [exact Hx |]. unfold region. rewrite Hx. reflexivity.
Qed.

Lemma is_safe_loop_spec self r0 c0 qs :
  square (grid_size self) (grid self) ->
  in_bounds (grid_size self) (r0, c0) ->
  Forall (in_bounds (grid_size self)) qs ->
  exists b, is_safe_loop self r0 c0 qs = Ok b /\
            (b = true <-> Forall (fun q => ~ conflict self r0 c0 q) qs).
Proof.
  intros Hsq Hin0. induction qs as [| [r c] qs IH]; intros Hall.
  - exists true. split; [reflexivity |]. split; [intros _; apply Forall_nil_2 | reflexivity].
  - apply Forall_cons in Hall as [Hin Hall]. cbn [is_safe_loop].
    assert (Hno :
               conflict self r0 c0 (r, c) ->
               (false = true <-> Forall (fun q => ~ conflict self r0 c0 q) ((r, c) :: qs))).
    { intros Hc. split; [discriminate |].
      intros H. apply Forall_cons in H as [H _]. contradiction. }
    destruct (Z.eqb_spec r r0) as [Hr | Hr]; cbn [orb].
    { exists false. split; [reflexivity |]. apply Hno. left. exact Hr. }
    destruct (Z.eqb_spec c c0) as [Hc | Hc].
    { exists false. split; [reflexivity |]. apply Hno. right; left. exact Hc. }
    destruct (Z.leb_spec (Z.abs (r0 - r)) 1) as [Ha | Ha]; cbn [andb].
    { destruct (Z.leb_spec (Z.abs (c0 - c)) 1) as [Hb | Hb].
      { exists false. split; [reflexivity |]. apply Hno.
        right; right; left. split; assumption. }
      destruct (region_in_bounds self r c Hsq Hin) as [a [Ea Ra]].
      destruct (region_in_bounds self r0 c0 Hsq Hin0) as [b [Eb Rb]].
      rewrite Ea, Eb. cbn [bind].
      destruct (Z.eqb_spec (color a) (color b)) as [Hk | Hk].
      { exists false. split; [reflexivity |]. apply Hno.
        right; right; right. cbn. rewrite Ra, Rb, Hk. reflexivity. }
      destruct (IH Hall) as [v [-> Hv]]. exists v. split; [reflexivity |].
      rewrite Hv, Forall_cons. split; [| tauto].
      intros H. split; [| exact H].
      intros [E | [E | [[_ E] | E]]]; cbn in E; [tauto | tauto | lia |].
      rewrite Ra, Rb in E. congruence. }
    destruct (region_in_bounds self r c Hsq Hin) as [a [Ea Ra]].
    destruct (region_in_bounds self r0 c0 Hsq Hin0) as [b [Eb Rb]].
    rewrite Ea, Eb. cbn [bind].
    destruct (Z.eqb_spec (color a) (color b)) as [Hk | Hk].
    { exists false. split; [reflexivity |]. apply Hno.
      right; right; right. cbn. rewrite Ra, Rb, Hk. reflexivity. }
    destruct (IH Hall) as [v [-> Hv]]. exists v. split; [reflexivity |].
    rewrite Hv, Forall_cons. split; [| tauto].
    intros H. split; [| exact H].
    intros [E | [E | [[E _] | E]]]; cbn in E; [tauto | tauto | lia |].
    rewrite Ra, Rb in E. congruence.
Qed.

(** X1. On a square board whose stored queens and the cell asked about are
    in bounds, [is_safe] returns normally, and it answers true exactly when
    no stored queen shares the row, shares the column, is within one step in
    both directions, or is in the region of the cell. *)
Theorem is_safe_iff_no_conflict self qs r0 c0 :
  square (grid_size self) (grid self) ->
  queen_positions self = Some qs ->
  Forall (in_bounds (grid_size self)) qs ->
  in_bounds (grid_size self) (r0, c0) ->
  exists b, is_safe self r0 c0 = Ok b /\
            (b = true <-> forall q, q ∈ qs -> ~ conflict self r0 c0 q).
Proof.
  intros Hsq Hq Hall Hin. unfold is_safe. rewrite Hq.
  destruct (is_safe_loop_spec self r0 c0 qs Hsq Hin Hall) as [b [E Hb]].
  exists b. split; [exact E |]. rewrite Hb, Forall_forall. reflexivity.
Qed.

(** Side conditions on the sample boards, by evaluation. *)
Ltac concrete :=
  lazymatch goal with
  | |- square _ _ =>
      split; [reflexivity |];
      repeat (apply Forall_cons_2; [reflexivity |]); apply Forall_nil_2
  | |- in_bounds _ _ =>
      unfold in_bounds; vm_compute; repeat split; congruence
  | |- Forall _ _ =>
      repeat (apply Forall_cons_2; [concrete |]); apply Forall_nil_2
  end.

Lemma is_safe_iff_no_conflict_witness :
  exists b, is_safe board1_solved 0 0 = Ok b /\
            (b = true <-> forall q, q ∈ [(0, 0)] -> ~ conflict board1_solved 0 0 q).
Proof.
  apply (is_safe_iff_no_conflict board1_solved [(0, 0)] 0 0);
    [concrete | reflexivity | concrete | concrete].
Defined.

(** ** What [solve] leaves alone *)

Lemma mark_queens_regions qs : forall self self',
  mark_queens self qs = Ok self' ->
  grid_size self' = grid_size self /\
  history self' = history self /\
  colors (grid self') = colors (grid self).
Proof.
  induction qs as [| [r c] qs IH]; intros self self'; cbn.
  - intros [= <-]. auto.
  - destruct (update_cell self r c _) as [s | e |] eqn:E; cbn; try discriminate.
    intros H. apply IH in H as (H1 & H2 & H3).
    apply update_cell_Ok in E as (E1 & _ & E3 & _ & E5).
    rewrite H1, H2, H3, E1, E3, E5; [auto |]. intros x. reflexivity.
Qed.

(** X2. Whenever [solve] returns, found a placement or not, the size of the
    board, the edit history and the region of every cell are what they were:
    the solver only writes the stored placement and the occupied flags. *)
Theorem solve_keeps_regions self out self' :
  solve self = Ok (out, self') ->
  grid_size self' = grid_size self /\
  history self' = history self /\
  colors (grid self') = colors (grid self) /\
  (forall r c, region self' r c = region self r c).
Proof.
  intros H.
  assert (K : grid_size self' = grid_size self /\
              history self' = history self /\
              colors (grid self') = colors (grid self)).
  { rewrite solve_unfold in H.
    destruct (backtrack _ _ _ _) as [[res st] | e |]; cbn [bind fst] in H;
      try discriminate H.
    destruct res as [[| p t] |]; cbn [truthy negb] in H.
    - injection H as _ <-. auto.
    - destruct (mark_queens _ _) as [s | e |] eqn:E; cbn [bind] in H;
        try discriminate H.
      injection H as _ <-. apply mark_queens_regions in E. exact E.
    - injection H as _ <-. auto. }
  destruct K as (K1 & K2 & K3). do 3 (split; [assumption |]).
  intros r c. apply region_same_colors, K3.
Qed.

Lemma solve_keeps_regions_witness :
  exists self',
    solve board2_rows = Ok ([], self') /\
    colors (grid self') = colors (grid board2_rows) /\
    region self' 1 1 = region board2_rows 1 1.
Proof.
  eexists. split; [vm_compute; reflexivity |].
  pose proof (solve_keeps_regions board2_rows _ _ eq_refl) as (_ & _ & H3 & H4).
  split; [exact H3 | apply H4].
Defined.

(** ** The placement that [solve] finds *)

(** X3. On every reachable board, a placement that [solve] finds has exactly
    N entries, one in each of the rows 0 .. N-1 and in that order, every
    entry a cell of the board, and all entries in different regions. *)
Theorem found_placement_rows_and_regions self self1 qs :
  reachable self ->
  solve self = Ok ([], self1) ->
  queen_positions self1 = Some qs ->
  length qs = Z.to_nat (grid_size self1) /\
  qs.*1 = range (grid_size self1) /\
  distinct_rows qs /\
  Forall (in_bounds (grid_size self1)) qs /\
  distinct_regions self1 qs.
Proof. apply solve_placement_shape. Qed.

Lemma found_placement_rows_and_regions_witness :
  exists self1,
    solve board2_rows = Ok ([], self1) /\
    [(0, 0); (1, 0)].*1 = range (grid_size self1) /\
    distinct_regions self1 [(0, 0); (1, 0)].
Proof.
  eexists. split; [vm_compute; reflexivity |].
  assert (Hreach : reachable board2_rows).
  { eapply (reachable_step _ (Op_set_region 1 1 1));
      [eapply (reachable_step _ (Op_set_region 1 0 1));
       [apply (reachable_init 2); reflexivity |] |];
      vm_compute; reflexivity. }
  pose proof (found_placement_rows_and_regions board2_rows _ [(0, 0); (1, 0)]
                Hreach eq_refl eq_refl) as (_ & H2 & _ & _ & H5).
  split; [exact H2 | exact H5].
Defined.

(** ** [solve] called again *)

(** X4. On every reachable board, a [solve] that follows a [solve] which
    found a placement reports that there is no solution, stores [None] and
    changes nothing else: every row is taken in the stored placement that
    [is_safe] reads. *)
Theorem solve_after_success_reports_none self self1 :
  reachable self ->
  solve self = Ok ([], self1) ->
  solve self1 = Ok ([no_solution_msg], set_queen_positions self1 None).
Proof. apply solve_again_finds_nothing. Qed.

Lemma solve_after_success_reports_none_witness :
  solve board1_solved =
  Ok ([no_solution_msg], set_queen_positions board1_solved None).
Proof.
  apply (solve_after_success_reports_none board1);
    [apply (reachable_init 1); reflexivity | vm_compute; reflexivity].
Defined.

(** X5. On a square board with at least one row whose stored placement is
    [None] (as a [solve] that found nothing leaves it), [solve] raises
    [TypeError]. *)
Theorem solve_after_failure_raises self :
  square (grid_size self) (grid self) ->
  1 <= grid_size self ->
  queen_positions self = None ->
  solve self = Raise TypeError.
Proof. apply solve_after_None. Qed.

Lemma solve_after_failure_raises_witness :
  solve board1_failed = Raise TypeError.
Proof.
  apply solve_after_failure_raises; [concrete | vm_compute; congruence | reflexivity].
Defined.



(** ** The search is exhaustive and returns the first assignment *)

Section FirstAssignment.

Variable self : Grid.
Hypothesis Hsq : square (grid_size self) (grid self).
Hypothesis Hq : queen_positions self = Some [].

Lemma fresh_tail_nil used : fresh_tail self (grid_size self) used [].
Proof.
  split; [rewrite Z.sub_diag; reflexivity |].
  split; [apply Forall_nil_2 |].
  exists []. split; [apply Forall2_nil_2 |]. split; [apply NoDup_nil_2 |].
  intros k Hk. apply elem_of_nil in Hk. contradiction.
Qed.

Lemma fresh_tail_cons r c x used t :
  0 <= r < grid_size self -> 0 <= c < grid_size self ->
  cell_at self r c = Ok x -> color x ∉ used ->
  fresh_tail self (r + 1) ({[ color x ]} ∪ used) t ->
  fresh_tail self r used ((r, c) :: t).
Proof.
  intros Hr Hc Hx Hk (Hrows & Hcols & ks & Hks & Hnd & Hfresh).
  split; [| split].
  - rewrite fmap_cons, Hrows, (seqZ_cons r) by lia. cbn [fst].
    f_equal. f_equal; lia.
  - apply Forall_cons. split; [exact Hc | exact Hcols].
  - exists (color x :: ks). split; [| split].
    + apply Forall2_cons. split; [| exact Hks].
      unfold region. cbn. rewrite Hx. reflexivity.
    + apply NoDup_cons. split; [| exact Hnd].
      intros Hin. apply (Hfresh _ Hin).
      apply elem_of_union_l, elem_of_singleton. reflexivity.
    + intros k Hin. apply elem_of_cons in Hin as [-> | Hin]; [exact Hk |].
      intros Hu. apply (Hfresh _ Hin). apply elem_of_union_r, Hu.
Qed.

Lemma fresh_tail_inv r used tail :
  0 <= r < grid_size self ->
  fresh_tail self r used tail ->
  exists c x t,
    tail = (r, c) :: t /\ 0 <= c < grid_size self /\
    cell_at self r c = Ok x /\ (color x ∉ used) /\
    fresh_tail self (r + 1) ({[ color x ]} ∪ used) t.
Proof.
  intros Hr (Hrows & Hcols & ks & Hks & Hnd & Hfresh).
  rewrite (seqZ_cons r) in Hrows by lia.
  destruct tail as [| [r' c] t]; [discriminate Hrows |].
  rewrite fmap_cons in Hrows. cbn [fst] in Hrows.
  injection Hrows as -> Hrows.
  apply Forall_cons in Hcols as [Hc Hcols]. cbn in Hc.
  destruct ks as [| k ks]; [apply Forall2_cons_nil_inv in Hks; contradiction |].
  apply Forall2_cons in Hks as [Hk Hks]. cbn in Hk.
  apply NoDup_cons in Hnd as [Hk' Hnd].
  destruct (region_in_bounds self r c Hsq) as [x [Hx Rx]]; [split; assumption |].
  assert (k = color x) as -> by congruence.
  exists c, x, t. split; [reflexivity |]. split; [exact Hc |].
  split; [exact Hx |].
  split; [apply Hfresh; left |].
  split; [rewrite Hrows; f_equal; lia |]. split; [exact Hcols |].
  exists ks. split; [exact Hks |]. split; [exact Hnd |].
  intros k Hin Hu. apply elem_of_union in Hu as [Hu | Hu].
  - apply elem_of_singleton in Hu. subst k. contradiction.
  - apply (Hfresh k); [right; exact Hin | exact Hu].
Qed.

(** The loop over the columns [m, m+1, ..., m+k-1] of row [r]. *)
Lemma backtrack_cols_first rec r :
  0 <= r < grid_size self ->
  (forall st, exists out, rec st = Ok out /\ finds_first self (r + 1) st out) ->
  forall (k : nat) m st,
    0 <= m -> m + Z.of_nat k <= grid_size self ->
    exists out,
      backtrack_cols rec self r (seqZ m (Z.of_nat k)) st = Ok out /\
      ((out = (None, st) /\
        forall c t, m <= c < m + Z.of_nat k ->
                    fresh_tail self r (s_regions st) ((r, c) :: t) ->
                    False) \/
       (exists c t,
           m <= c < m + Z.of_nat k /\
           out.1 = Some (s_queens st ++ (r, c) :: t) /\
           s_queens out.2 = s_queens st ++ (r, c) :: t /\
           fresh_tail self r (s_regions st) ((r, c) :: t) /\
           forall c' t', m <= c' < m + Z.of_nat k ->
                         fresh_tail self r (s_regions st) ((r, c') :: t') ->
                         lex_le (c :: t.*2) (c' :: t'.*2))).
Proof.
  intros Hr Hrec. induction k as [| k IH]; intros m st Hm Hmk.
  - cbn. eexists. split; [reflexivity |]. left. split; [reflexivity |].
    intros c t Hc _. lia.
  - rewrite seqZ_cons by lia.
    replace (Z.pred (Z.of_nat (S k))) with (Z.of_nat k) by lia.
    cbn [backtrack_cols].
    destruct (cell_at_in_bounds self r m Hsq) as [x Hx]; [split; cbn; lia |].
    rewrite Hx. cbn [bind]. rewrite (is_safe_empty _ _ _ Hq). cbn [bind andb].
    (* a fresh tail that starts in column [m] *)
    assert (Hhead : forall t used,
               fresh_tail self r used ((r, m) :: t) ->
               (color x ∉ used) /\
               fresh_tail self (r + 1) ({[ color x ]} ∪ used) t).
    { intros t used Hf.
      apply (fresh_tail_inv r _ _ Hr) in Hf
        as (c1 & x1 & t1 & [= <- <-] & _ & Hx1 & Hk1 & Hf1).
      assert (x1 = x) as -> by congruence. auto. }
    destruct (bool_decide (color x ∈ s_regions st)) eqn:Ek; cbn [negb].
    + apply bool_decide_eq_true in Ek.
      destruct (IH (Z.succ m) st) as [out [E Hout]]; [lia | lia |].
      exists out. split; [exact E |].
      destruct Hout as [[-> Hnone] | (c & t & Hc & H1 & H2 & H3 & H4)].
      * left. split; [reflexivity |]. intros c t Hc Hf.
        destruct (Z.eq_dec c m) as [-> | Hne];
          [apply Hhead in Hf as [Hk _]; contradiction |].
        apply (Hnone c t); [lia | exact Hf].
      * right. exists c, t. split; [lia |]. do 3 (split; [assumption |]).
        intros c' t' Hc' Hf.
        destruct (Z.eq_dec c' m) as [-> | Hne];
          [apply Hhead in Hf as [Hk _]; contradiction |].
        apply H4; [lia | exact Hf].
    + apply bool_decide_eq_false in Ek.
      destruct (Hrec {| s_queens := s_queens st ++ [(r, m)];
                        s_regions := {[ color x ]} ∪ s_regions st |})
        as [[res st2] [-> Hspec]]. cbn [bind].
      destruct Hspec as [[[= -> ->] Hnone] | (t & H1 & H2 & H3 & H4)].
      * cbn [truthy s_queens s_regions]. rewrite py_pop_snoc. cbn [bind].
        rewrite set_remove_fresh by exact Ek. cbn [bind].
        destruct (IH (Z.succ m) st) as [out [E Hout]]; [lia | lia |].
        destruct st as [q s]. cbn [s_queens s_regions] in *.
        exists out. split; [exact E |].
        destruct Hout as [[-> Hno] | (c & t & Hc & K1 & K2 & K3 & K4)].
        -- left. split; [reflexivity |]. intros c t Hc Hf.
           destruct (Z.eq_dec c m) as [-> | Hne];
             [apply Hhead in Hf as [_ Hf]; exact (Hnone _ Hf) |].
           apply (Hno c t); [lia | exact Hf].
        -- right. exists c, t. split; [lia |]. do 3 (split; [assumption |]).
           intros c' t' Hc' Hf.
           destruct (Z.eq_dec c' m) as [-> | Hne];
             [apply Hhead in Hf as [_ Hf]; destruct (Hnone _ Hf) |].
           apply K4; [lia | exact Hf].
      * cbn [fst snd s_queens s_regions] in H1, H2, H3, H4. subst res.
        rewrite <- app_assoc in H2 |- *.
        change ([(r, m)] ++ t) with ((r, m) :: t) in *.
        rewrite truthy_app.
        eexists. split; [reflexivity |]. right.
        exists m, t. cbn [fst snd]. split; [lia |].
        split; [rewrite H2; reflexivity |]. split; [exact H2 |].
        split; [apply (fresh_tail_cons r m x); try assumption; lia |].
        intros c' t' Hc' Hf.
        destruct (Z.eq_dec c' m) as [-> | Hne].
        -- apply lex_le_eq, H4. apply Hhead in Hf as [_ Hf]. exact Hf.
        -- apply lex_le_lt. lia.
Qed.

Lemma backtrack_first :
  forall fuel r st,
    0 <= r <= grid_size self ->
    (Z.to_nat (grid_size self - r) < fuel)%nat ->
    exists out, backtrack fuel self r st = Ok out /\ finds_first self r st out.
Proof.
  induction fuel as [| fuel IH]; intros r st Hr Hfuel; [lia |].
  rewrite backtrack_S.
  destruct (Z.eqb_spec r (grid_size self)) as [-> | Hne].
  - eexists. split; [reflexivity |]. right. exists []. cbn [fst snd].
    rewrite app_nil_r. do 2 (split; [reflexivity |]).
    split; [apply fresh_tail_nil |]. intros tail' _. apply lex_le_nil.
  - assert (Hr' : 0 <= r < grid_size self) by lia.
    destruct (backtrack_cols_first (backtrack fuel self (r + 1)) r Hr')
      with (k := Z.to_nat (grid_size self)) (m := 0) (st := st)
      as [out [E Hout]]; [intros st'; apply IH; lia | lia | lia |].
    rewrite Z2Nat.id in E by lia.
    exists out. split; [exact E |].
    destruct Hout as [[-> Hnone] | (c & t & Hc & H1 & H2 & H3 & H4)].
    + left. split; [reflexivity |]. intros tail Hf.
      destruct (fresh_tail_inv r _ _ Hr' Hf) as (c & x & t & -> & Hc & _).
      apply (Hnone c t); [lia | exact Hf].
    + right. exists ((r, c) :: t). do 3 (split; [assumption |]).
      intros tail' Hf.
      destruct (fresh_tail_inv r _ _ Hr' Hf) as (c' & x & t' & -> & Hc' & _).
      apply (H4 c' t'); [lia | exact Hf].
Qed.

Lemma fresh_tail_assignment qs :
  fresh_tail self 0 ∅ qs <-> region_assignment self qs.
Proof.
  unfold fresh_tail, region_assignment, range. rewrite Z.sub_0_r. split.
  - intros (Hrows & Hcols & ks & Hks & Hnd & _).
    split; [exact Hrows |].
    split; [apply (rows_in_bounds _ _ Hrows Hcols) |].
    exists ks. auto.
  - intros (Hrows & Hall & ks & Hks & Hnd).
    split; [exact Hrows |]. split.
    + eapply Forall_impl; [exact Hall |]. intros p [_ H]. exact H.
    + exists ks. split; [exact Hks |]. split; [exact Hnd |].
      intros k _. apply not_elem_of_empty.
Qed.

(** [solve] on a board without stored queens, by region assignments. *)
Lemma solve_first_assignment :
  1 <= grid_size self ->
  (solve self = Ok ([no_solution_msg], set_queen_positions self None) /\
   forall qs, ~ region_assignment self qs) \/
  (exists qs self',
      solve self = Ok ([], self') /\
      queen_positions self' = Some qs /\
      region_assignment self qs /\
      forall qs', region_assignment self qs' -> lex_le (qs.*2) (qs'.*2)).
Proof.
  intros Hn. rewrite solve_unfold.
  destruct (backtrack_first (solve_fuel self) 0 start)
    as [[res st2] [-> Hspec]]; [lia | unfold solve_fuel; lia |].
  cbn [bind fst].
  destruct Hspec as [[[= -> ->] Hnone] | (qs & H1 & H2 & H3 & H4)].
  - left. split; [reflexivity |]. intros qs Hqs.
    apply (Hnone qs), fresh_tail_assignment, Hqs.
  - right. cbn in H1, H2, H3, H4. subst res.
    pose proof H3 as Hra. apply fresh_tail_assignment in Hra.
    destruct Hra as (Hrows & Hall & Hreg).
    destruct qs as [| p t].
    { unfold range in Hrows. rewrite seqZ_cons in Hrows by lia.
      discriminate Hrows. }
    cbn [truthy negb].
    destruct (mark_queens_frame (p :: t)
                (set_queen_positions self (Some (p :: t))) Hsq Hall)
      as [self' [-> Hf]].
    exists (p :: t), self'. cbn [bind].
    split; [reflexivity |]. split; [apply Hf |].
    split; [apply fresh_tail_assignment, H3 |].
    intros qs' Hqs'. apply H4, fresh_tail_assignment, Hqs'.
Qed.

End FirstAssignment.



(** X8. On a square board without stored queens, the placement that [solve]
    finds is an assignment of one cell per row with pairwise distinct
    regions, and among all such assignments it is the one whose sequence of
    columns comes first in the lexicographic order. *)
Theorem solve_finds_first_assignment self qs :
  square (grid_size self) (grid self) ->
  queen_positions self = Some [] ->
  solved_with self qs ->
  region_assignment self qs /\
  forall qs', region_assignment self qs' -> lex_le (qs.*2) (qs'.*2).
Proof.
  intros Hsq Hq (s & E & Hqs & _).
  destruct (Z_le_gt_dec (grid_size self) 0) as [Hn | Hn].
  { destruct (solve_no_rows self Hn) as [q [E' _]]. rewrite E in E'.
    discriminate E'. }
  destruct (solve_first_assignment self Hsq Hq)
    as [[E' _] | (qs1 & s1 & E' & Hqs1 & Hra & Hmin)]; [lia | |];
    rewrite E in E'; [discriminate E' |].
  injection E' as ->. assert (qs1 = qs) as -> by congruence.
  split; assumption.
Qed.

Lemma solve_finds_first_assignment_witness :
  region_assignment board2_rows [(0, 0); (1, 0)] /\
  forall qs', region_assignment board2_rows qs' ->
              lex_le ([(0, 0); (1, 0)].*2) (qs'.*2).
Proof.
  apply solve_finds_first_assignment; [concrete | reflexivity |].
  eexists. split; [vm_compute; reflexivity | split; reflexivity].
Defined.

(** ** A board as constructed *)

Lemma Grid_init_cell n self i j x :
  Grid_init n = Ok self ->
  cell_nat (grid self) i j = Some x ->
  x = Cell_init (Z.of_nat i) (Z.of_nat j) 0.
Proof.
  intros [= <-]. unfold cell_nat. cbn [grid].
  rewrite list_lookup_fmap.
  destruct (range n !! i) as [r |] eqn:Er; cbn; [| discriminate].
  rewrite list_lookup_fmap.
  destruct (range n !! j) as [c |] eqn:Ec; cbn; [| discriminate].
  unfold range in Er, Ec.
  apply lookup_seqZ in Er as [-> _]. apply lookup_seqZ in Ec as [-> _].
  intros [= <-]. f_equal; lia.
Qed.

Lemma Grid_init_region n self r c :
  Grid_init n = Ok self ->
  in_bounds n (r, c) ->
  region self r c = Ok 0.
Proof.
  intros H Hin. pose proof (Grid_init_inv _ _ H) as [Hsq _ _].
  assert (Hn : grid_size self = n) by (injection H as <-; reflexivity).
  rewrite Hn in Hsq.
  destruct (region_in_bounds self r c) as [x [Hx ->]];
    [rewrite Hn; assumption .. |].
  apply (cell_at_nat self r c) in Hx; [| rewrite Hn; assumption ..].
  apply (Grid_init_cell n self _ _ _ H) in Hx. subst x. reflexivity.
Qed.

(** X9. A board of size at least 2, as constructed, has no solution:
    [solve] reports it and stores [None], since all cells are in region 0. *)
Theorem solve_fresh_board_fails n self :
  2 <= n ->
  Grid_init n = Ok self ->
  solve self = Ok ([no_solution_msg], set_queen_positions self None).
Proof.
  intros Hn H. pose proof (Grid_init_inv _ _ H) as [Hsq _ _].
  assert (Hsize : grid_size self = n) by (injection H as <-; reflexivity).
  assert (Hq : queen_positions self = Some []) by (injection H as <-; reflexivity).
  destruct (solve_first_assignment self Hsq Hq)
    as [[E _] | (qs & _ & _ & _ & Hra & _)]; [lia | exact E |].
  exfalso. destruct Hra as (Hrows & Hall & ks & Hks & Hnd).
  rewrite Hsize in Hrows, Hall. unfold range in Hrows.
  rewrite seqZ_cons in Hrows by lia. rewrite (seqZ_cons (Z.succ 0)) in Hrows by lia.
  destruct qs as [| [r0 c0] [| [r1 c1] qs]]; try discriminate Hrows.
  apply Forall_cons in Hall as [Hin0 Hall].
  apply Forall_cons in Hall as [Hin1 _].
  destruct ks as [| k0 ks]; [apply Forall2_cons_nil_inv in Hks; contradiction |].
  apply Forall2_cons in Hks as [Hk0 Hks].
  destruct ks as [| k1 ks]; [apply Forall2_cons_nil_inv in Hks; contradiction |].
  apply Forall2_cons in Hks as [Hk1 _]. cbn in Hk0, Hk1.
  rewrite (Grid_init_region n self r0 c0 H Hin0) in Hk0.
  rewrite (Grid_init_region n self r1 c1 H Hin1) in Hk1.
  injection Hk0 as <-. injection Hk1 as <-.
  apply NoDup_cons in Hnd as [Hnd _]. apply Hnd. left.
Qed.

Lemma solve_fresh_board_fails_witness :
  solve board2 = Ok ([no_solution_msg], set_queen_positions board2 None).
Proof.
  apply (solve_fresh_board_fails 2); [lia | reflexivity].
Defined.

(** ** Recolouring and [undo] *)

(** The cell read at an in-bounds place after a write at an in-bounds
    place. *)
Lemma update_cell_cell_at self r c f self' r1 c1 :
  square (grid_size self) (grid self) ->
  in_bounds (grid_size self) (r, c) ->
  in_bounds (grid_size self) (r1, c1) ->
  update_cell self r c f = Ok self' ->
  exists x, cell_at self r1 c1 = Ok x /\
            cell_at self' r1 c1 =
            Ok (if decide ((r1, c1) = (r, c)) then f x else x).
Proof.
  intros Hsq Hin Hin1 H.
  pose proof (update_cell_Ok _ _ _ _ _ H) as (E1 & _ & _ & Hsq' & _).
  specialize (Hsq' _ Hsq). rewrite <- E1 in Hsq'.
  destruct (cell_at_in_bounds self r1 c1 Hsq Hin1) as [x Hx].
  exists x. split; [exact Hx |].
  apply (cell_at_nat self' r1 c1 Hsq'); [rewrite E1; exact Hin1 |].
  apply (cell_at_nat self r1 c1 Hsq Hin1) in Hx.
  apply update_cell_shape in H
    as (k1 & k2 & line & y & Hk1 & Hk2 & Hline & Hy & ->). cbn [grid set_grid].
  pose proof Hin as [Hr Hc]. pose proof Hin1 as [Hr1 Hc1].
  cbn in Hr, Hc, Hr1, Hc1.
  rewrite py_pos_in_bounds in Hk1 by (destruct Hsq as [-> _]; lia).
  rewrite py_pos_in_bounds in Hk2
    by (rewrite (square_line _ _ _ _ Hsq Hline); lia).
  injection Hk1 as <-. injection Hk2 as <-.
  rewrite (cell_nat_insert _ _ _ _ _ _ _ _ Hline Hy).
  destruct (decide ((r1, c1) = (r, c))) as [[= -> ->] | Hne].
  - rewrite decide_True by auto.
    unfold cell_nat in Hx. rewrite Hline, Hy in Hx. congruence.
  - rewrite decide_False; [exact Hx |].
    intros [Ha Hb]. apply Hne. f_equal; lia.
Qed.

Lemma recolour_one_cell self r c k self' :
  square (grid_size self) (grid self) ->
  in_bounds (grid_size self) (r, c) ->
  update_cell self r c (set_color k) = Ok self' ->
  region self' r c = Ok k /\
  (forall r1 c1, in_bounds (grid_size self) (r1, c1) -> (r1, c1) <> (r, c) ->
                 region self' r1 c1 = region self r1 c1) /\
  (forall r1 c1, in_bounds (grid_size self) (r1, c1) ->
                 occupied self' r1 c1 <-> occupied self r1 c1).
Proof.
  intros Hsq Hin H. split; [| split].
  - destruct (update_cell_cell_at _ _ _ _ _ r c Hsq Hin Hin H) as [x [_ E]].
    rewrite decide_True in E by reflexivity.
    unfold region. rewrite E. reflexivity.
  - intros r1 c1 Hin1 Hne.
    destruct (update_cell_cell_at _ _ _ _ _ r1 c1 Hsq Hin Hin1 H) as [x [E0 E]].
    rewrite decide_False in E by exact Hne.
    unfold region. rewrite E, E0. reflexivity.
  - intros r1 c1 Hin1.
    destruct (update_cell_cell_at _ _ _ _ _ r1 c1 Hsq Hin Hin1 H) as [x [E0 E]].
    unfold occupied. rewrite E, E0.
    destruct (decide ((r1, c1) = (r, c))); split;
      intros [y [[= <-] Hy]]; eexists; (split; [reflexivity | exact Hy]).
Qed.

(** X10. Recolouring an in-bounds cell of a square board returns normally;
    afterwards that cell is in the new region, every other cell is in the
    region it was in, no occupied flag has changed, and size, stored
    placement and edit history are what they were. *)
Theorem set_region_recolours_one_cell self r c k :
  square (grid_size self) (grid self) ->
  in_bounds (grid_size self) (r, c) ->
  exists self',
    set_region self r c k = Ok self' /\
    region self' r c = Ok k /\
    (forall r1 c1, in_bounds (grid_size self) (r1, c1) -> (r1, c1) <> (r, c) ->
                   region self' r1 c1 = region self r1 c1) /\
    (forall r1 c1, in_bounds (grid_size self) (r1, c1) ->
                   occupied self' r1 c1 <-> occupied self r1 c1) /\
    grid_size self' = grid_size self /\
    queen_positions self' = queen_positions self /\
    history self' = history self.
Proof.
  intros Hsq Hin. unfold set_region.
  destruct (update_cell_in_bounds self r c (set_color k) Hsq Hin) as [self' H].
  exists self'. split; [exact H |].
  destruct (recolour_one_cell self r c k self' Hsq Hin H) as (H1 & H2 & H3).
  do 3 (split; [assumption |]).
  apply update_cell_Ok in H as (E1 & E2 & E3 & _). auto.
Qed.

Lemma set_region_recolours_one_cell_witness :
  exists self',
    set_region board2 1 0 7 = Ok self' /\
    region self' 1 0 = Ok 7 /\
    history self' = history board2.
Proof.
  destruct (set_region_recolours_one_cell board2 1 0 7)
    as (self' & H & H1 & _ & _ & _ & _ & H6); [concrete | concrete |].
  exists self'. auto.
Defined.

Lemma py_get_out_of_range {A} (l : list A) i :
  ~ (- Z.of_nat (length l) <= i < Z.of_nat (length l)) ->
  py_get l i = Raise IndexError.
Proof.
  intros Hi. unfold py_get, py_pos.
  destruct (Z.leb_spec 0 i); destruct (Z.ltb_spec i (Z.of_nat (length l)));
    cbn; try lia; try reflexivity;
    destruct (Z.ltb_spec i 0);
    destruct (Z.leb_spec (- Z.of_nat (length l)) i);
    cbn; try lia; reflexivity.
Qed.

Lemma py_get_in_range {A} (l : list A) i :
  - Z.of_nat (length l) <= i < Z.of_nat (length l) ->
  exists a, py_get l i = Ok a /\ a ∈ l.
Proof.
  intros Hi. unfold py_get.
  destruct (py_pos l i) as [k |] eqn:E.
  - pose proof (py_pos_lt _ _ _ E) as Hk.
    destruct (lookup_lt_is_Some_2 l k Hk) as [a Ha].
    exists a. rewrite Ha. split; [reflexivity |].
    eapply list_elem_of_lookup_2, Ha.
  - exfalso. unfold py_pos in E.
    destruct (Z.leb_spec 0 i); destruct (Z.ltb_spec i (Z.of_nat (length l)));
      cbn in E; try discriminate E; try lia;
      destruct (Z.ltb_spec i 0);
      destruct (Z.leb_spec (- Z.of_nat (length l)) i);
      cbn in E; try discriminate E; lia.
Qed.

Lemma update_cell_out_of_range self r c f :
  square (grid_size self) (grid self) ->
  0 <= grid_size self ->
  ~ (- grid_size self <= r < grid_size self) \/
  ~ (- grid_size self <= c < grid_size self) ->
  update_cell self r c f = Raise IndexError.
Proof.
  intros Hsq Hn Hout. unfold update_cell.
  assert (Hlen : Z.of_nat (length (grid self)) = grid_size self)
    by (destruct Hsq as [-> _]; lia).
  destruct (decide (- grid_size self <= r < grid_size self)) as [Hr | Hr].
  - destruct (py_get_in_range (grid self) r) as [line [-> Hline]];
      [rewrite Hlen; exact Hr |].
    cbn [bind]. destruct Hout as [Hr' | Hc]; [contradiction |].
    unfold py_update. rewrite py_get_out_of_range; [reflexivity |].
    destruct Hsq as [_ Hall]. rewrite Forall_forall in Hall.
    rewrite (Hall _ Hline). lia.
  - rewrite py_get_out_of_range; [reflexivity |]. rewrite Hlen. exact Hr.
Qed.

(** X11. A recolouring whose row or column subscript lies outside
    [-N, N) raises [IndexError] on a square board of size N. *)
Theorem set_region_out_of_range self r c k :
  square (grid_size self) (grid self) ->
  0 <= grid_size self ->
  ~ (- grid_size self <= r < grid_size self) \/
  ~ (- grid_size self <= c < grid_size self) ->
  set_region self r c k = Raise IndexError.
Proof. intros Hsq Hn Hout. apply update_cell_out_of_range; assumption. Qed.

Lemma set_region_out_of_range_witness :
  set_region board2 0 2 1 = Raise IndexError.
Proof.
  apply set_region_out_of_range; [concrete | vm_compute; congruence |].
  right. vm_compute. intros [_ H]. discriminate H.
Defined.

(** X12. On a square board whose edit history ends with [(r, c, k)], an
    in-bounds cell, [undo] removes that last entry and puts the cell
    [(r, c)] back in region [k]; every other cell keeps its region, and
    size, occupied flags and stored placement are untouched. *)
Theorem undo_restores_last_entry self h r c k :
  square (grid_size self) (grid self) ->
  history self = h ++ [(r, c, k)] ->
  in_bounds (grid_size self) (r, c) ->
  exists self',
    undo self = Ok self' /\
    history self' = h /\
    region self' r c = Ok k /\
    (forall r1 c1, in_bounds (grid_size self) (r1, c1) -> (r1, c1) <> (r, c) ->
                   region self' r1 c1 = region self r1 c1) /\
    (forall r1 c1, in_bounds (grid_size self) (r1, c1) ->
                   occupied self' r1 c1 <-> occupied self r1 c1) /\
    grid_size self' = grid_size self /\
    queen_positions self' = queen_positions self.
Proof.
  intros Hsq Hh Hin. unfold undo. rewrite Hh.
  destruct (h ++ [(r, c, k)]) as [| e l] eqn:El;
    [destruct h; discriminate El |].
  rewrite <- El. rewrite last_snoc, removelast_last.
  destruct (update_cell_in_bounds (set_history self h) r c (set_color k) Hsq Hin)
    as [self' H].
  exists self'. split; [exact H |].
  destruct (recolour_one_cell (set_history self h) r c k self' Hsq Hin H)
    as (H1 & H2 & H3).
  apply update_cell_Ok in H as (E1 & E2 & E3 & _).
  split; [exact E3 |]. split; [exact H1 |]. split; [exact H2 |].
  split; [exact H3 |]. auto.
Qed.

Lemma undo_restores_last_entry_witness :
  exists self',
    undo (set_history board2_rows [(1, 0, 0)]) = Ok self' /\
    history self' = [] /\
    region self' 1 0 = Ok 0.
Proof.
  destruct (undo_restores_last_entry (set_history board2_rows [(1, 0, 0)])
              [] 1 0 0) as (self' & H & H1 & H2 & _);
    [concrete | reflexivity | concrete |].
  exists self'. auto.
Defined.

Lemma py_pos_same_length {A} (l l' : list A) i :
  length l = length l' -> py_pos l i = py_pos l' i.
Proof. intros H. unfold py_pos. rewrite H. reflexivity. Qed.

(** X16. Recolouring a cell and then recolouring it back to the region it
    was in gives back the very same board. *)
Theorem recolour_and_back self r c k k0 self1 :
  region self r c = Ok k0 ->
  set_region self r c k = Ok self1 ->
  set_region self1 r c k0 = Ok self.
Proof.
  intros Hreg H. unfold set_region in *.
  apply update_cell_shape in H
    as (k1 & k2 & line & x & Hk1 & Hk2 & Hline & Hx & ->).
  assert (Hk0 : color x = k0).
  { unfold region, cell_at, py_get in Hreg. rewrite Hk1, Hline in Hreg.
    cbn [bind] in Hreg. rewrite Hk2, Hx in Hreg. cbn in Hreg. congruence. }
  pose proof (lookup_lt_Some _ _ _ Hline) as Hlt1.
  pose proof (lookup_lt_Some _ _ _ Hx) as Hlt2.
  unfold update_cell, py_update, py_get. cbn [grid set_grid].
  rewrite (py_pos_same_length _ (grid self)) by apply length_insert.
  rewrite Hk1, list_lookup_insert_eq by exact Hlt1. cbn [bind].
  rewrite (py_pos_same_length _ line) by apply length_insert.
  rewrite Hk2. cbv beta iota.
  rewrite list_lookup_insert_eq by exact Hlt2. cbn [bind].
  rewrite !list_insert_insert_eq.
  assert (Hback : set_color k0 (set_color k x) = x)
    by (destruct x; cbn in *; subst; reflexivity).
  rewrite Hback, (list_insert_id line k2 x Hx), (list_insert_id _ k1 line Hline).
  destruct self. reflexivity.
Qed.

Lemma recolour_and_back_witness :
  exists self1,
    set_region board2 1 0 7 = Ok self1 /\ set_region self1 1 0 0 = Ok board2.
Proof.
  eexists. split; [vm_compute; reflexivity |].
  apply (recolour_and_back board2 1 0 7 0); [reflexivity | vm_compute; reflexivity].
Defined.

(** ** [reset] *)

(** X13. On a square board [reset] returns normally; afterwards the stored
    placement is empty and no cell of the board is flagged as occupied, while
    size, edit history and the region of every cell are what they were. *)
Theorem reset_clears_every_flag self :
  square (grid_size self) (grid self) ->
  exists self',
    reset self = Ok self' /\
    queen_positions self' = Some [] /\
    (forall r c, in_bounds (grid_size self) (r, c) -> ~ occupied self' r c) /\
    grid_size self' = grid_size self /\
    history self' = history self /\
    (forall r c, region self' r c = region self r c).
Proof.
  intros Hsq.
  destruct (reset_square self Hsq) as [self' (E & H1 & H2 & H3 & _ & H5)].
  exists self'. split; [exact E |]. split; [exact H1 |].
  split; [intros r c Hin; apply (reset_clears self self' r c Hsq Hin E) |].
  do 2 (split; [assumption |]).
  intros r c. apply region_same_colors, H5.
Qed.

Lemma reset_clears_every_flag_witness :
  exists self',
    reset board1_solved = Ok self' /\
    queen_positions self' = Some [] /\
    ~ occupied self' 0 0.
Proof.
  destruct (reset_clears_every_flag board1_solved)
    as (self' & E & H1 & H2 & _); [concrete |].
  exists self'. split; [exact E |]. split; [exact H1 |].
  apply H2. concrete.
Defined.

Lemma update_cell_same self r c f self' :
  update_cell self r c f = Ok self' ->
  (forall x, cell_at self r c = Ok x -> f x = x) ->
  self' = self.
Proof.
  intros H Hf.
  apply update_cell_shape in H
    as (k1 & k2 & line & x & Hk1 & Hk2 & Hline & Hx & ->).
  assert (Hcell : cell_at self r c = Ok x).
  { unfold cell_at, py_get. rewrite Hk1, Hline. cbn [bind].
    rewrite Hk2, Hx. reflexivity. }
  rewrite (Hf x Hcell).
  rewrite (list_insert_id line k2 x Hx), (list_insert_id _ k1 line Hline).
  destruct self. reflexivity.
Qed.

Section CleanBoard.

(** A square board on which no cell is flagged. *)
Variable self : Grid.
Hypothesis Hsq : square (grid_size self) (grid self).
Hypothesis Hclean :
  forall r c, in_bounds (grid_size self) (r, c) -> ~ occupied self r c.

Lemma clear_flag_clean r c :
  in_bounds (grid_size self) (r, c) ->
  update_cell self r c (set_contains_queen false) = Ok self.
Proof.
  intros Hin.
  destruct (update_cell_in_bounds self r c (set_contains_queen false) Hsq Hin)
    as [self' H].
  rewrite H. f_equal. apply (update_cell_same _ _ _ _ _ H).
  intros [a b k q] Hx. destruct q; [| reflexivity].
  destruct (Hclean r c Hin). eexists. split; [exact Hx | reflexivity].
Qed.

Lemma reset_cols_clean r cols :
  0 <= r < grid_size self ->
  Forall (fun c => 0 <= c < grid_size self) cols ->
  reset_cols self r cols = Ok self.
Proof.
  intros Hr. induction cols as [| c cols IH]; intros Hall; cbn; [reflexivity |].
  apply Forall_cons in Hall as [Hc Hall].
  rewrite clear_flag_clean by (split; assumption). cbn [bind]. apply IH, Hall.
Qed.

Lemma reset_rows_clean rows :
  Forall (fun r => 0 <= r < grid_size self) rows ->
  reset_rows self rows = Ok self.
Proof.
  induction rows as [| r rows IH]; intros Hall; cbn; [reflexivity |].
  apply Forall_cons in Hall as [Hr Hall].
  rewrite reset_cols_clean by (try assumption; apply range_bounds).
  cbn [bind]. apply IH, Hall.
Qed.

End CleanBoard.

(** X14. [reset] is idempotent on square boards: a second [reset] right after
    a first one returns the very same board. *)
Theorem reset_twice self self1 :
  square (grid_size self) (grid self) ->
  reset self = Ok self1 ->
  reset self1 = Ok self1.
Proof.
  intros Hsq H.
  destruct (reset_square self Hsq) as [s (E & H1 & H2 & _ & H4 & _)].
  rewrite H in E. injection E as <-.
  assert (Hclean : forall r c, in_bounds (grid_size self1) (r, c) ->
                               ~ occupied self1 r c).
  { intros r c Hin. rewrite H2 in Hin.
    apply (reset_clears self self1 r c Hsq Hin H). }
  unfold reset.
  assert (Hsame : set_queen_positions self1 (Some []) = self1).
  { destruct self1. cbn in H1. subst. reflexivity. }
  rewrite Hsame. apply reset_rows_clean; [exact H4 | exact Hclean |].
  apply range_bounds.
Qed.

Lemma reset_twice_witness :
  exists self1, reset board1_solved = Ok self1 /\ reset self1 = Ok self1.
Proof.
  eexists. split; [vm_compute; reflexivity |].
  apply (reset_twice board1_solved); [concrete | vm_compute; reflexivity].
Defined.

(** ** The coordinates stored in the cells *)

Lemma update_cell_coords self r c f self' :
  (forall x, row (f x) = row x /\ col (f x) = col x) ->
  update_cell self r c f = Ok self' ->
  coords_ok self -> coords_ok self'.
Proof.
  intros Hf H Hok i j y.
  apply update_cell_shape in H
    as (k1 & k2 & line & x & _ & _ & Hline & Hx & ->). cbn [grid set_grid].
  rewrite (cell_nat_insert _ _ _ _ _ _ _ _ Hline Hx).
  destruct (decide (i = k1 /\ j = k2)) as [[-> ->] | _]; [| apply Hok].
  intros [= <-]. destruct (Hf x) as [-> ->]. apply Hok.
  unfold cell_nat. rewrite Hline. exact Hx.
Qed.

Lemma mark_queens_coords qs : forall self self',
  mark_queens self qs = Ok self' -> coords_ok self -> coords_ok self'.
Proof.
  induction qs as [| [r c] qs IH]; intros self self'; cbn.
  - intros [= <-]. auto.
  - destruct (update_cell self r c _) as [s | e |] eqn:E; cbn; try discriminate.
    intros H Hok. apply (IH _ _ H).
    eapply update_cell_coords; [| exact E | exact Hok].
    intros x. split; reflexivity.
Qed.

Lemma reset_cols_coords r cols : forall self self',
  reset_cols self r cols = Ok self' -> coords_ok self -> coords_ok self'.
Proof.
  induction cols as [| c cols IH]; intros self self'; cbn.
  - intros [= <-]. auto.
  - destruct (update_cell self r c _) as [s | e |] eqn:E; cbn; try discriminate.
    intros H Hok. apply (IH _ _ H).
    eapply update_cell_coords; [| exact E | exact Hok].
    intros x. split; reflexivity.
Qed.

Lemma reset_rows_coords rows : forall self self',
  reset_rows self rows = Ok self' -> coords_ok self -> coords_ok self'.
Proof.
  induction rows as [| r rows IH]; intros self self'; cbn.
  - intros [= <-]. auto.
  - destruct (reset_cols self r _) as [s | e |] eqn:E; cbn; try discriminate.
    intros H Hok. apply (IH _ _ H). apply (reset_cols_coords _ _ _ _ E Hok).
Qed.

Lemma solve_coords self out self' :
  solve self = Ok (out, self') -> coords_ok self -> coords_ok self'.
Proof.
  rewrite solve_unfold.
  destruct (backtrack _ _ _ _) as [[res st] | e |]; cbn [bind fst];
    try discriminate.
  destruct res as [[| p t] |]; cbn [truthy negb].
  - intros [= _ <-]. auto.
  - destruct (mark_queens _ _) as [s | e |] eqn:E; cbn [bind]; try discriminate.
    intros [= _ <-]. apply (mark_queens_coords _ _ _ E).
  - intros [= _ <-]. auto.
Qed.

Lemma undo_coords self self' :
  undo self = Ok self' -> coords_ok self -> coords_ok self'.
Proof.
  unfold undo. destruct (history self) as [| e l] eqn:Eh.
  - intros [= <-]. auto.
  - destruct (last (e :: l)) as [[[r c] k] |]; [| discriminate].
    intros H Hok. eapply update_cell_coords; [| exact H | exact Hok].
    intros x. split; reflexivity.
Qed.

Lemma run_op_coords self o self' :
  run_op self o = Ok self' -> coords_ok self -> coords_ok self'.
Proof.
  destruct o as [r c k | | |]; cbn.
  - apply update_cell_coords. intros x. split; reflexivity.
  - destruct (solve self) as [[out s] | e |] eqn:E; cbn; try discriminate.
    intros [= <-]. apply (solve_coords _ _ _ E).
  - unfold reset. intros H. apply (reset_rows_coords _ _ _ H).
  - apply undo_coords.
Qed.

Lemma reachable_coords self : reachable self -> coords_ok self.
Proof.
  induction 1 as [n self H | self o self' _ IH H].
  - intros i j x Hx. apply (Grid_init_cell n self _ _ _ H) in Hx.
    subst x. split; reflexivity.
  - apply (run_op_coords _ _ _ H IH).
Qed.

(** X15. On every reachable board, the cell stored at an in-bounds place
    [(r, c)] carries these very coordinates in its [row] and [col] fields:
    no operation moves a cell or rewrites its coordinates. *)
Theorem cells_keep_their_coordinates self r c :
  reachable self ->
  in_bounds (grid_size self) (r, c) ->
  exists x, cell_at self r c = Ok x /\ row x = r /\ col x = c.
Proof.
  intros Hreach Hin.
  pose proof (reachable_inv _ Hreach) as [Hsq _ _].
  destruct (cell_at_in_bounds self r c Hsq Hin) as [x Hx].
  exists x. split; [exact Hx |].
  apply (cell_at_nat self r c Hsq Hin) in Hx.
  apply (reachable_coords self Hreach) in Hx as [-> ->].
  destruct Hin as [Hr Hc]. cbn in Hr, Hc. split; lia.
Qed.

Lemma cells_keep_their_coordinates_witness :
  exists x, cell_at board1_solved 0 0 = Ok x /\ row x = 0 /\ col x = 0.
Proof.
  apply cells_keep_their_coordinates; [| concrete].
  eapply (reachable_step _ Op_solve);
    [apply (reachable_init 1); reflexivity | vm_compute; reflexivity].
Defined.

(** ** The palette of [main] *)

Lemma pad_colors_steps size : forall (k : nat) cs,
  Z.to_nat (size + 1 - Z.of_nat (length cs)) = k ->
  exists cs',
    pad_colors (S k) size cs = Ok cs' /\
    cs `prefix_of` cs' /\
    Z.of_nat (length cs') = Z.max (Z.of_nat (length cs)) (size + 1) /\
    Forall (fun c => 0 <= c.1.1 < 256 /\ 0 <= c.1.2 < 256 /\ 0 <= c.2 < 256)
           (drop (length cs) cs').
Proof.
  induction k as [| k IH]; intros cs Hk; cbn [pad_colors].
  - destruct (Z.ltb_spec (Z.of_nat (length cs)) (size + 1)); [lia |].
    exists cs. split; [reflexivity |]. split; [reflexivity |].
    split; [lia |]. rewrite drop_all. apply Forall_nil_2.
  - destruct (Z.ltb_spec (Z.of_nat (length cs)) (size + 1)); [| lia].
    set (n := Z.of_nat (length cs)) in *.
    set (new := ((n * 15) mod 256, (n * 50) mod 256, (n * 90) mod 256)).
    destruct (IH (cs ++ [new])) as [cs' (E & Hpre & Hlen & Hall)].
    { rewrite length_app. cbn [length]. lia. }
    exists cs'. split; [exact E |].
    split; [etrans; [apply prefix_app_r; reflexivity | exact Hpre] |].
    rewrite length_app in Hlen, Hall. cbn [length] in Hlen, Hall.
    split; [lia |].
    destruct Hpre as [rest ->].
    rewrite <- app_assoc, drop_app_length. cbn [app].
    rewrite <- app_assoc in Hall.
    replace (length cs + 1)%nat with (length (cs ++ [new])) in Hall
      by (rewrite length_app; reflexivity).
    rewrite app_assoc, drop_app_length in Hall.
    apply Forall_cons. split; [| exact Hall].
    unfold new. cbn [fst snd].
    repeat split; apply Z.mod_pos_bound; lia.
Qed.

(** X17. For every grid size and every initial list of colours the loop that
    fills the palette ends; the result starts with the initial list, has
    [size + 1] colours unless the initial list was longer already, and every
    colour that was added has its three channels in [0, 256). *)
Theorem pad_colors_fills_palette size cs :
  exists cs',
    pad_colors (pad_fuel size cs) size cs = Ok cs' /\
    cs `prefix_of` cs' /\
    Z.of_nat (length cs') = Z.max (Z.of_nat (length cs)) (size + 1) /\
    Forall (fun c => 0 <= c.1.1 < 256 /\ 0 <= c.1.2 < 256 /\ 0 <= c.2 < 256)
           (drop (length cs) cs').
Proof. apply pad_colors_steps. reflexivity. Qed.

Lemma COLORS_length : Z.of_nat (length COLORS) = GRID_SIZE + 1.
Proof. reflexivity. Qed.

Lemma CELL_SIZE_value : CELL_SIZE = 81.
Proof. reflexivity. Qed.

(** ** Mouse clicks *)

Lemma palette_index_range x :
  0 <= x < WIDTH ->
  0 <= x / (WIDTH / Z.of_nat (length COLORS)) < Z.of_nat (length COLORS).
Proof.
  intros Hx.
  change (WIDTH / Z.of_nat (length COLORS)) with 75.
  change (Z.of_nat (length COLORS)) with 12. unfold WIDTH in Hx.
  split; [apply Z.div_pos; lia | apply Z.div_lt_upper_bound; lia].
Qed.

Lemma draw_swatches_fill u pw : forall cs i0 (k : nat) col,
  cs !! k = Some col ->
  Fill col ((i0 + Z.of_nat k) * pw) (HEIGHT - PALETTE_HEIGHT) pw PALETTE_HEIGHT
    ∈ draw_swatches u pw i0 cs /\
  (i0 + Z.of_nat k = selected_color u ->
   Outline BLACK ((i0 + Z.of_nat k) * pw + 2) (HEIGHT - PALETTE_HEIGHT + 2)
           (pw - 4) (PALETTE_HEIGHT - 4) 3
     ∈ draw_swatches u pw i0 cs).
Proof.
  induction cs as [| c cs IH]; intros i0 k col Hk; [discriminate Hk |].
  cbn [draw_swatches]. destruct k as [| k].
  - injection Hk as ->. rewrite Z.add_0_r. split.
    + apply list_elem_of_here.
    + intros Hsel. apply Z.eqb_eq in Hsel. rewrite Hsel.
      do 2 apply list_elem_of_further. apply list_elem_of_here.
  - cbn in Hk. destruct (IH (i0 + 1) k col Hk) as [H1 H2].
    replace (i0 + Z.of_nat (S k)) with (i0 + 1 + Z.of_nat k) by lia.
    split; [| intros Hsel; specialize (H2 Hsel)];
      do 2 apply list_elem_of_further; apply elem_of_app; right; assumption.
Qed.

(** X18. The palette is painted as twelve swatches that tile the width of
    the window.  A click in the palette strip inside the swatch painted for
    colour number [i] selects [i], a subscript for which [COLORS] has that
    very colour, leaves the board alone, and makes [draw_palette] paint the
    highlight frame on that swatch; every horizontal position of the window
    lies in one of the swatches. *)
Theorem swatch_click_selects_its_colour u :
  let pw := WIDTH / Z.of_nat (length COLORS) in
  (forall (i : nat) col x y,
      COLORS !! i = Some col ->
      Z.of_nat i * pw <= x < Z.of_nat i * pw + pw ->
      HEIGHT - PALETTE_HEIGHT <= y ->
      Fill col (Z.of_nat i * pw) (HEIGHT - PALETTE_HEIGHT) pw PALETTE_HEIGHT
        ∈ draw_palette u /\
      exists u',
        mouse_down u x y = Ok u' /\
        selected_color u' = Z.of_nat i /\
        py_get COLORS (selected_color u') = Ok col /\
        ui_grid u' = ui_grid u /\
        Outline BLACK (Z.of_nat i * pw + 2) (HEIGHT - PALETTE_HEIGHT + 2)
                (pw - 4) (PALETTE_HEIGHT - 4) 3
          ∈ draw_palette u') /\
  (forall x, 0 <= x < WIDTH ->
             exists (i : nat) col,
               COLORS !! i = Some col /\
               Z.of_nat i * pw <= x < Z.of_nat i * pw + pw).
Proof.
  intros pw. split.
  - intros i col x y Hi Hx Hy.
    pose proof (lookup_lt_Some _ _ _ Hi) as Hlt.
    assert (Hdiv : x / pw = Z.of_nat i).
    { subst pw. change (WIDTH / Z.of_nat (length COLORS)) with 75 in *.
      symmetry. apply (Z.div_unique x 75 (Z.of_nat i) (x - Z.of_nat i * 75)); lia. }
    split.
    + destruct (draw_swatches_fill u pw COLORS 0 i col Hi) as [H _].
      exact H.
    + unfold mouse_down.
      destruct (Z.leb_spec (HEIGHT - PALETTE_HEIGHT) y); [| lia].
      fold pw. rewrite Hdiv. eexists. split; [reflexivity |].
      cbn [selected_color ui_grid].
      split; [reflexivity |]. split; [| split; [reflexivity |]].
      * unfold py_get. rewrite py_pos_in_bounds by lia.
        rewrite Nat2Z.id, Hi. reflexivity.
      * match goal with
        | |- _ ∈ draw_palette ?u1 =>
            destruct (draw_swatches_fill u1 pw COLORS 0 i col Hi) as [_ Hhl]
        end.
        apply Hhl. reflexivity.
  - intros x Hx. pose proof (palette_index_range x Hx) as Hsel. fold pw in Hsel.
    destruct (lookup_lt_is_Some_2 COLORS (Z.to_nat (x / pw))) as [col Hcol];
      [lia |].
    exists (Z.to_nat (x / pw)), col. split; [exact Hcol |].
    rewrite Z2Nat.id by lia.
    subst pw. change (WIDTH / Z.of_nat (length COLORS)) with 75 in *.
    pose proof (Z.div_mod x 75) as Hdm. pose proof (Z.mod_pos_bound x 75) as Hmb.
    lia.
Qed.

Lemma swatch_click_selects_its_colour_witness :
  exists u',
    mouse_down {| ui_grid := board2; selected_color := 1;
                  printed := []; quit_called := false |} 899 950 = Ok u' /\
    selected_color u' = 11 /\
    py_get COLORS (selected_color u') = Ok (165, 38, 222).
Proof.
  destruct (proj1 (swatch_click_selects_its_colour
                     {| ui_grid := board2; selected_color := 1;
                        printed := []; quit_called := false |})
              11%nat (165, 38, 222) 899 950)
    as (_ & u' & E & H1 & H2 & _);
    [reflexivity | vm_compute; split; congruence | vm_compute; congruence |].
  exists u'. split; [exact E |]. split; [exact H1 | exact H2].
Defined.

Lemma hit_spec b x y :
  hit b x y = true <->
  b_x b <= x <= b_x b + 150 /\ b_y b <= y <= b_y b + 50.
Proof.
  unfold hit. rewrite !andb_true_iff, !Z.leb_le. tauto.
Qed.

(** The four hit tests, as ranges of the mouse position. *)
Lemma hits_spec x y :
  (hit (mkButton "Solve" 50 (HEIGHT - PALETTE_HEIGHT - 60) Act_solve) x y = true
   <-> 50 <= x <= 200 /\ 840 <= y <= 890) /\
  (hit (mkButton "Reset" 250 (HEIGHT - PALETTE_HEIGHT - 60) Act_reset) x y = true
   <-> 250 <= x <= 400 /\ 840 <= y <= 890) /\
  (hit (mkButton "Undo" 450 (HEIGHT - PALETTE_HEIGHT - 60) Act_undo) x y = true
   <-> 450 <= x <= 600 /\ 840 <= y <= 890) /\
  (hit (mkButton "Exit" 650 (HEIGHT - PALETTE_HEIGHT - 60) Act_quit) x y = true
   <-> 650 <= x <= 800 /\ 840 <= y <= 890).
Proof.
  split; [| split; [| split]];
    (etrans; [apply hit_spec |]); cbn [b_x b_y];
    unfold HEIGHT, PALETTE_HEIGHT; lia.
Qed.

(** At most one button is hit, so the loop over the buttons runs at most one
    action. *)
Lemma click_buttons_one u x y :
  (forall b, b ∈ buttons -> hit b x y = true ->
             click_buttons buttons u x y = run_action u (b_action b)) /\
  ((forall b, b ∈ buttons -> hit b x y = false) ->
   click_buttons buttons u x y = Ok u).
Proof.
  destruct (hits_spec x y) as (S1 & S2 & S3 & S4).
  unfold buttons. cbn [click_buttons]. split.
  - intros b Hb Hhit.
    repeat (apply elem_of_cons in Hb as [-> | Hb]);
      try (apply elem_of_nil in Hb; contradiction);
      rewrite Hhit; cbn [b_action];
      match goal with
      | |- context [hit ?b1 x y] =>
          destruct (hit b1 x y) eqn:?
      | _ => idtac
      end;
      repeat match goal with
      | |- context [hit ?b1 x y] => destruct (hit b1 x y) eqn:?
      end;
      repeat match goal with
      | H : hit _ x y = true |- _ =>
          first [ apply S1 in H | apply S2 in H | apply S3 in H | apply S4 in H ]
      end;
      try lia;
      destruct (run_action u _); reflexivity.
  - intros Hnone.
    rewrite !Hnone
      by (repeat first [ apply list_elem_of_here | apply list_elem_of_further ]).
    reflexivity.
Qed.

Lemma mouse_down_strip u x y :
  HEIGHT - PALETTE_HEIGHT - 60 <= y < HEIGHT - PALETTE_HEIGHT ->
  mouse_down u x y = click_buttons buttons u x y.
Proof.
  intros Hy. unfold mouse_down.
  destruct (Z.leb_spec (HEIGHT - PALETTE_HEIGHT) y); [lia |].
  destruct (Z.leb_spec (HEIGHT - PALETTE_HEIGHT - 60) y); [| lia].
  destruct (Z.ltb_spec y (HEIGHT - PALETTE_HEIGHT)); [| lia].
  reflexivity.
Qed.

(** X19. A click in the button strip that passes the hit test of one of the
    four buttons runs the action of that button and of no other, and a click
    in the strip that passes no hit test changes nothing; every point of the
    rectangle that [draw_buttons] paints for a button passes the hit test of
    that button. *)
Theorem button_click_runs_one_action u x y :
  HEIGHT - PALETTE_HEIGHT - 60 <= y < HEIGHT - PALETTE_HEIGHT ->
  (forall b, b ∈ buttons -> hit b x y = true ->
             mouse_down u x y = run_action u (b_action b)) /\
  ((forall b, b ∈ buttons -> hit b x y = false) -> mouse_down u x y = Ok u) /\
  (forall b, b ∈ buttons ->
             Fill BLACK (b_x b) (b_y b) 150 50 ∈ draw_buttons /\
             (b_x b <= x < b_x b + 150 -> b_y b <= y < b_y b + 50 ->
              hit b x y = true)).
Proof.
  intros Hy. rewrite mouse_down_strip by exact Hy.
  destruct (click_buttons_one u x y) as [H1 H2].
  split; [exact H1 |]. split; [exact H2 |].
  intros b Hb. split.
  - unfold draw_buttons. apply list_elem_of_In, in_flat_map.
    exists b. split; [apply list_elem_of_In, Hb | left; reflexivity].
  - intros Hbx Hby. apply hit_spec. lia.
Qed.

Lemma button_click_runs_one_action_witness :
  mouse_down {| ui_grid := board1; selected_color := 1;
                printed := []; quit_called := false |} 300 850 =
  run_action {| ui_grid := board1; selected_color := 1;
                printed := []; quit_called := false |} Act_reset.
Proof.
  refine (proj1 (button_click_runs_one_action _ 300 850 _)
            (mkButton "Reset" 250 (HEIGHT - PALETTE_HEIGHT - 60) Act_reset) _ _).
  - vm_compute. split; congruence.
  - unfold buttons. apply list_elem_of_further, list_elem_of_here.
  - reflexivity.
Defined.

(** ** The states of the window *)

Lemma mouse_down_grid u x y :
  0 <= y < HEIGHT - PALETTE_HEIGHT - 60 ->
  mouse_down u x y =
  let* g := set_region (ui_grid u) (y / CELL_SIZE) (x / CELL_SIZE)
              (selected_color u) in
  Ok (set_ui_grid u g).
Proof.
  intros Hy. unfold mouse_down.
  destruct (Z.leb_spec (HEIGHT - PALETTE_HEIGHT) y);
    [unfold HEIGHT, PALETTE_HEIGHT in *; lia |].
  destruct (Z.leb_spec (HEIGHT - PALETTE_HEIGHT - 60) y); [lia |].
  reflexivity.
Qed.



Lemma grid_click_margin u x y :
  grid_size (ui_grid u) = GRID_SIZE ->
  square GRID_SIZE (grid (ui_grid u)) ->
  GRID_SIZE * CELL_SIZE <= x < WIDTH ->
  0 <= y < HEIGHT - PALETTE_HEIGHT - 60 ->
  mouse_down u x y = Raise IndexError.
Proof.
  intros Hsize Hsq Hx Hy. rewrite mouse_down_grid by exact Hy.
  unfold set_region. rewrite update_cell_out_of_range; [reflexivity | | |].
  - rewrite Hsize. exact Hsq.
  - rewrite Hsize. unfold GRID_SIZE. lia.
  - right. rewrite Hsize. rewrite CELL_SIZE_value in *.
    unfold GRID_SIZE, WIDTH in *.
    assert (11 <= x / 81) by (apply Z.div_le_lower_bound; lia). lia.
Qed.

Lemma colors_cell_nat g g' i j :
  colors g' = colors g ->
  color <$> cell_nat g' i j = color <$> cell_nat g i j.
Proof.
  intros H. apply (f_equal (fun m => m !! i)) in H. unfold colors in H.
  rewrite !list_lookup_fmap in H. unfold cell_nat.
  destruct (g' !! i) as [l' |], (g !! i) as [l |]; cbn in H;
    try discriminate H; [| reflexivity].
  injection H as H. apply (f_equal (fun m => m !! j)) in H.
  rewrite !list_lookup_fmap in H. exact H.
Qed.

Lemma palette_ok_colors a b :
  colors (grid b) = colors (grid a) -> palette_ok a -> palette_ok b.
Proof.
  intros H Hok i j x Hx.
  pose proof (colors_cell_nat _ _ i j H) as E. rewrite Hx in E. cbn in E.
  destruct (cell_nat (grid a) i j) as [y |] eqn:Ey; [| discriminate E].
  injection E as ->. apply (Hok i j y Ey).
Qed.

Lemma run_action_inv u a u' :
  ui_inv u -> run_action u a = Ok u' -> ui_inv u'.
Proof.
  intros [Hb Hs Hp Hsel] H. pose proof (reachable_inv _ Hb) as Hinv.
  destruct a; cbn [run_action] in H.
  - destruct (solve (ui_grid u)) as [[out g] | e |] eqn:E; cbn in H;
      try discriminate H.
    injection H as <-.
    destruct (solve_inv _ _ _ Hinv E) as (_ & [S1 S2] & _).
    split; cbn.
    + apply (reachable_step _ Op_solve _ Hb). cbn. rewrite E. reflexivity.
    + congruence.
    + apply (palette_ok_colors (ui_grid u)); [symmetry; exact S2 | exact Hp].
    + exact Hsel.
  - destruct (reset (ui_grid u)) as [g | e |] eqn:E; cbn in H;
      try discriminate H.
    injection H as <-.
    destruct (reset_inv _ _ Hinv E) as (_ & [S1 S2] & _).
    split; cbn.
    + apply (reachable_step _ Op_reset _ Hb). exact E.
    + congruence.
    + apply (palette_ok_colors (ui_grid u)); [symmetry; exact S2 | exact Hp].
    + exact Hsel.
  - destruct (undo (ui_grid u)) as [g | e |] eqn:E; cbn in H;
      try discriminate H.
    injection H as <-. apply (undo_inv _ _ Hinv) in E. subst g.
    split; assumption.
  - injection H as <-. split; assumption.
Qed.

Lemma click_buttons_inv bs : forall u x y u',
  ui_inv u -> click_buttons bs u x y = Ok u' -> ui_inv u'.
Proof.
  induction bs as [| b bs IH]; intros u x y u' Hinv; cbn.
  - intros [= <-]. exact Hinv.
  - destruct (hit b x y); [| apply IH, Hinv].
    destruct (run_action u (b_action b)) as [u1 | e |] eqn:E; cbn;
      try discriminate.
    apply IH. apply (run_action_inv _ _ _ Hinv E).
Qed.

Lemma mouse_down_inv u x y u' :
  ui_inv u -> 0 <= x < WIDTH -> mouse_down u x y = Ok u' -> ui_inv u'.
Proof.
  intros Hinv Hx. unfold mouse_down.
  destruct (HEIGHT - PALETTE_HEIGHT <=? y).
  { intros [= <-]. destruct Hinv as [Hb Hs Hp _].
    split; cbn; try assumption. apply palette_index_range, Hx. }
  destruct ((HEIGHT - PALETTE_HEIGHT - 60 <=? y) && (y <? HEIGHT - PALETTE_HEIGHT)).
  { apply click_buttons_inv, Hinv. }
  destruct (set_region _ _ _ _) as [g | e |] eqn:E; cbn; try discriminate.
  intros [= <-]. destruct Hinv as [Hb Hs Hp Hsel].
  pose proof (update_cell_Ok _ _ _ _ _ E) as (E1 & _).
  split; cbn.
  - apply (reachable_step _ (Op_set_region (y / CELL_SIZE) (x / CELL_SIZE)
                                 (selected_color u)) _ Hb). exact E.
  - congruence.
  - intros i j z Hz. unfold set_region in E.
    apply update_cell_shape in E
      as (k1 & k2 & line & w & _ & _ & Hline & Hw & ->).
    cbn [grid set_grid] in Hz.
    rewrite (cell_nat_insert _ _ _ _ _ _ _ _ Hline Hw) in Hz.
    destruct (decide (i = k1 /\ j = k2)); [| apply (Hp i j z Hz)].
    injection Hz as <-. exact Hsel.
  - exact Hsel.
Qed.

Lemma ui_init_inv u : ui_init = Ok u -> ui_inv u.
Proof.
  intros [= <-]. split; cbn.
  - apply (reachable_init GRID_SIZE). reflexivity.
  - reflexivity.
  - intros i j x Hx.
    apply (Grid_init_cell GRID_SIZE _ i j x eq_refl) in Hx. subst x.
    cbn. rewrite COLORS_length. unfold GRID_SIZE. lia.
  - rewrite COLORS_length. unfold GRID_SIZE. lia.
Qed.

Lemma ui_reachable_inv u : ui_reachable u -> ui_inv u.
Proof.
  induction 1 as [u H | u x y u' _ IH _ Hx _ H].
  - apply ui_init_inv, H.
  - apply (mouse_down_inv u x y u' IH Hx H).
Qed.

(** ** [draw_grid] *)

Section Drawing.

Variable u : ui.
Hypothesis Hinv : ui_inv u.

Lemma ui_square : square (grid_size (ui_grid u)) (grid (ui_grid u)).
Proof. apply reachable_inv, Hinv. Qed.

Lemma cell_colour_known r c :
  in_bounds GRID_SIZE (r, c) ->
  exists x col,
    cell_at (ui_grid u) r c = Ok x /\ py_get COLORS (color x) = Ok col.
Proof.
  intros Hin. rewrite <- (ui_size u Hinv) in Hin.
  destruct (cell_at_in_bounds _ r c ui_square Hin) as [x Hx].
  pose proof Hx as Hn. apply (cell_at_nat _ r c ui_square Hin) in Hn.
  apply (ui_palette u Hinv) in Hn.
  destruct (py_get_in_bounds COLORS (color x) Hn) as [col [Hcol _]].
  exists x, col. split; assumption.
Qed.

Lemma draw_cell_ok r c :
  in_bounds GRID_SIZE (r, c) -> exists ps, draw_cell u r c = Ok ps.
Proof.
  intros Hin. destruct (cell_colour_known r c Hin) as (x & col & Hx & Hcol).
  unfold draw_cell. rewrite Hx. cbn [bind]. rewrite Hcol. cbn [bind].
  eexists. reflexivity.
Qed.

Lemma draw_cols_ok r cols :
  0 <= r < GRID_SIZE ->
  Forall (fun c => 0 <= c < GRID_SIZE) cols ->
  exists ps, draw_cols u r cols = Ok ps.
Proof.
  intros Hr. induction cols as [| c cols IH]; intros Hall; cbn.
  - eexists. reflexivity.
  - apply Forall_cons in Hall as [Hc Hall].
    destruct (draw_cell_ok r c) as [ps ->]; [split; assumption |].
    destruct (IH Hall) as [rest ->]. cbn. eexists. reflexivity.
Qed.

Lemma draw_rows_ok rows :
  Forall (fun r => 0 <= r < GRID_SIZE) rows ->
  exists ps, draw_rows u rows = Ok ps.
Proof.
  induction rows as [| r rows IH]; intros Hall; cbn.
  - eexists. reflexivity.
  - apply Forall_cons in Hall as [Hr Hall].
    destruct (draw_cols_ok r (range GRID_SIZE) Hr (range_bounds _)) as [ps ->].
    destruct (IH Hall) as [rest ->]. cbn. eexists. reflexivity.
Qed.

End Drawing.



(** X21. In every state of the window, a click above the button strip in the
    nine rightmost pixel columns of the window, which lie beyond the eleven
    columns that are drawn, raises [IndexError]: column [x // CELL_SIZE] is
    11. *)
Theorem grid_click_right_margin_raises u x y :
  ui_reachable u ->
  GRID_SIZE * CELL_SIZE <= x < WIDTH ->
  0 <= y < HEIGHT - PALETTE_HEIGHT - 60 ->
  mouse_down u x y = Raise IndexError.
Proof.
  intros Hreach Hx Hy. pose proof (ui_reachable_inv u Hreach) as Hinv.
  apply grid_click_margin; try assumption; [apply Hinv |].
  rewrite <- (ui_size u Hinv). apply reachable_inv, Hinv.
Qed.

Lemma grid_click_right_margin_raises_witness :
  exists u, ui_init = Ok u /\ mouse_down u 895 100 = Raise IndexError.
Proof.
  eexists. split; [reflexivity |].
  apply grid_click_right_margin_raises;
    [apply ui_reachable_init; reflexivity
    | vm_compute; split; congruence | vm_compute; split; congruence].
Defined.

(** X22. In every state of the window that clicks inside the window lead to
    from the initial one, [draw_grid] returns normally: every cell it reads
    exists, and the region of every cell is a subscript for which the palette
    has a colour. *)
Theorem draw_grid_never_raises u :
  ui_reachable u ->
  (exists ps, draw_grid u = Ok ps) /\
  (forall r c, in_bounds GRID_SIZE (r, c) ->
               exists x col, cell_at (ui_grid u) r c = Ok x /\
                             py_get COLORS (color x) = Ok col).
Proof.
  intros Hreach. pose proof (ui_reachable_inv u Hreach) as Hinv. split.
  - apply (draw_rows_ok u Hinv), range_bounds.
  - intros r c. apply (cell_colour_known u Hinv).
Qed.

Lemma draw_grid_never_raises_witness :
  exists u, ui_init = Ok u /\ exists ps, draw_grid u = Ok ps.
Proof.
  eexists. split; [reflexivity |].
  eapply draw_grid_never_raises, ui_reachable_init. reflexivity.
Defined.

Lemma run_action_regions u a u' :
  ui_inv u -> run_action u a = Ok u' ->
  colors (grid (ui_grid u')) = colors (grid (ui_grid u)).
Proof.
  intros [Hb _ _ _] H. pose proof (reachable_inv _ Hb) as Hinv.
  destruct a; cbn [run_action] in H.
  - destruct (solve (ui_grid u)) as [[out g] | e |] eqn:E; cbn in H;
      try discriminate H.
    injection H as <-. cbn.
    destruct (solve_inv _ _ _ Hinv E) as (_ & [_ S2] & _). symmetry. exact S2.
  - destruct (reset (ui_grid u)) as [g | e |] eqn:E; cbn in H;
      try discriminate H.
    injection H as <-. cbn.
    destruct (reset_inv _ _ Hinv E) as (_ & [_ S2] & _). symmetry. exact S2.
  - destruct (undo (ui_grid u)) as [g | e |] eqn:E; cbn in H;
      try discriminate H.
    injection H as <-. apply (undo_inv _ _ Hinv) in E. subst g. reflexivity.
  - injection H as <-. reflexivity.
Qed.

Lemma click_buttons_regions bs : forall u x y u',
  ui_inv u -> click_buttons bs u x y = Ok u' ->
  colors (grid (ui_grid u')) = colors (grid (ui_grid u)).
Proof.
  induction bs as [| b bs IH]; intros u x y u' Hinv; cbn.
  - intros [= <-]. reflexivity.
  - destruct (hit b x y); [| apply IH, Hinv].
    destruct (run_action u (b_action b)) as [u1 | e |] eqn:E; cbn;
      try discriminate.
    intros H. rewrite (IH u1 x y u' (run_action_inv _ _ _ Hinv E) H).
    apply (run_action_regions _ _ _ Hinv E).
Qed.

(** X23. In every state of the window, a click in the button strip or in the
    palette strip never changes the region of a cell, whatever it hits.  The
    button strip starts at [y = 840], above the lower edge [y = 891] of the
    bottom row of cells, so the cells of that row cannot be recoloured by a
    click on their lower part. *)
Theorem click_below_grid_keeps_regions u x y u' :
  ui_reachable u ->
  HEIGHT - PALETTE_HEIGHT - 60 <= y ->
  mouse_down u x y = Ok u' ->
  forall r c, region (ui_grid u') r c = region (ui_grid u) r c.
Proof.
  intros Hreach Hy H r c. pose proof (ui_reachable_inv u Hreach) as Hinv.
  apply region_same_colors. unfold mouse_down in H.
  destruct (Z.leb_spec (HEIGHT - PALETTE_HEIGHT) y).
  { injection H as <-. reflexivity. }
  destruct (Z.leb_spec (HEIGHT - PALETTE_HEIGHT - 60) y); [| lia].
  destruct (Z.ltb_spec y (HEIGHT - PALETTE_HEIGHT)); [| lia].
  cbn [andb] in H. apply (click_buttons_regions _ _ _ _ _ Hinv H).
Qed.

Lemma click_below_grid_keeps_regions_witness :
  exists u u',
    ui_init = Ok u /\
    mouse_down u 100 860 = Ok u' /\
    region (ui_grid u') 10 1 = region (ui_grid u) 10 1.
Proof.
  do 2 eexists. split; [reflexivity |].
  split; [vm_compute; reflexivity |].
  apply (click_below_grid_keeps_regions _ 100 860 _);
    [apply ui_reachable_init; reflexivity | vm_compute; congruence
    | vm_compute; reflexivity].
Defined.
